(** * Mnemos: the streaming chat consumer of [frontend-vite/src/App.jsx]

    A shallow embedding of [parseSseBlock] and of [send] (the fetch /
    decode / split / dispatch loop with its catch and finally handlers),
    together with the parts of the JavaScript host they rely on:
    UTF-16 strings, [String.prototype.split/trim/startsWith/slice],
    [Array.prototype.join/pop], the streaming UTF-8 [TextDecoder] and
    [JSON.parse]. *)

From Stdlib Require DecimalFacts DecimalN.
From Stdlib Require Import Ascii String DecimalString NArith Bool Arith Lia List.
Import ListNotations.


(* ================================================================== *)
(** * JavaScript strings *)
(* ================================================================== *)

Module JsString.

(** A JavaScript string is a sequence of UTF-16 code units. *)
Definition jsstring := list N.

(** ASCII literal of the source as a JavaScript string. *)
Definition lit (s : string) : jsstring :=
  map N_of_ascii (list_ascii_of_string s).

(** The same, with every apostrophe of the literal standing for a
    double quote (code unit 34); used to spell JSON text. *)
Definition litq (s : string) : jsstring :=
  map (fun c => if N.eqb c 39 then 34%N else c) (lit s).

(** Line feed, the source's ["\n"]. *)
Definition LF : N := 10%N.

Fixpoint eqb (a b : jsstring) : bool :=
  match a, b with
  | [], [] => true
  | x :: a', y :: b' => N.eqb x y && eqb a' b'
  | _, _ => false
  end.

(** [s.startsWith(p)] *)
Fixpoint startsWith (p s : jsstring) : bool :=
  match p, s with
  | [], _ => true
  | x :: p', y :: s' => N.eqb x y && startsWith p' s'
  | _ :: _, [] => false
  end.

(** [s.slice(n)] for [0 <= n] *)
Definition slice (n : nat) (s : jsstring) : jsstring := skipn n s.

(** White space and line terminators removed by [String.prototype.trim]. *)
Definition is_trim_space (c : N) : bool :=
  ((9 <=? c) && (c <=? 13) || (c =? 32) || (c =? 160) || (c =? 5760)
   || ((8192 <=? c) && (c <=? 8202)) || (c =? 8232) || (c =? 8233)
   || (c =? 8239) || (c =? 8287) || (c =? 12288) || (c =? 65279))%N.

Fixpoint trimStart (s : jsstring) : jsstring :=
  match s with
  | c :: s' => if is_trim_space c then trimStart s' else s
  | [] => []
  end.

Definition trimEnd (s : jsstring) : jsstring := rev (trimStart (rev s)).

(** [s.trim()] *)
Definition trim (s : jsstring) : jsstring := trimEnd (trimStart s).

Definition cons_head (c : N) (segs : list jsstring) : list jsstring :=
  match segs with
  | seg :: rest => (c :: seg) :: rest
  | [] => [[c]]
  end.

(** The scan of [String.prototype.split] for a non-empty separator:
    [skip] counts the code units of an already matched separator that
    are still to be passed over; the head of the result is the segment
    being collected. *)
Fixpoint split_scan (sep : jsstring) (skip : nat) (s : jsstring) : list jsstring :=
  match s with
  | [] => [[]]
  | c :: rest =>
      match skip with
      | S k => split_scan sep k rest
      | O =>
          if startsWith sep s
          then [] :: split_scan sep (length sep - 1) rest
          else cons_head c (split_scan sep 0 rest)
      end
  end.

(** [s.split(sep)], [sep] a non-empty string. *)
Definition split (sep s : jsstring) : list jsstring := split_scan sep 0 s.

(** [parts.join(sep)] *)
Fixpoint join (sep : jsstring) (parts : list jsstring) : jsstring :=
  match parts with
  | [] => []
  | [p] => p
  | p :: rest => p ++ sep ++ join sep rest
  end.

(** [xs.pop()]: the array without its last element, and that element
    ([None] stands for [undefined], the result on an empty array). *)
Definition pop {A : Type} (xs : list A) : list A * option A :=
  match rev xs with
  | [] => ([], None)
  | x :: front => (rev front, Some x)
  end.

(** Substring test, for statements of the form "the text contains ...". *)
Fixpoint includes (needle s : jsstring) : bool :=
  startsWith needle s ||
  match s with
  | [] => false
  | _ :: s' => includes needle s'
  end.

(** Decimal digits of a non-negative integer, as [String(n)] prints it. *)
Definition of_N (n : N) : jsstring :=
  lit (NilZero.string_of_uint (N.to_uint n)).

End JsString.
Import JsString.

(* ================================================================== *)
(** * The streaming UTF-8 TextDecoder *)
(* ================================================================== *)

Module TextDecoder.

Local Open Scope N_scope.

(** State of the UTF-8 decoder of the Encoding Standard. *)
Record Utf8 := {
  code_point : N;
  bytes_seen : N;
  bytes_needed : N;
  lower_boundary : N;
  upper_boundary : N
}.

Definition utf8_new : Utf8 :=
  {| code_point := 0; bytes_seen := 0; bytes_needed := 0;
     lower_boundary := 0x80; upper_boundary := 0xBF |}.

Definition REPLACEMENT : N := 0xFFFD.

(** Handler step taken when no bytes are pending: the state reached and
    the scalar values emitted. *)
Definition utf8_lead (b : N) : Utf8 * list N :=
  if b <=? 0x7F then (utf8_new, [b])
  else if (0xC2 <=? b) && (b <=? 0xDF) then
    ({| code_point := N.land b 0x1F; bytes_seen := 0; bytes_needed := 1;
        lower_boundary := 0x80; upper_boundary := 0xBF |}, [])
  else if (0xE0 <=? b) && (b <=? 0xEF) then
    ({| code_point := N.land b 0xF; bytes_seen := 0; bytes_needed := 2;
        lower_boundary := if b =? 0xE0 then 0xA0 else 0x80;
        upper_boundary := if b =? 0xED then 0x9F else 0xBF |}, [])
  else if (0xF0 <=? b) && (b <=? 0xF4) then
    ({| code_point := N.land b 0x7; bytes_seen := 0; bytes_needed := 3;
        lower_boundary := if b =? 0xF0 then 0x90 else 0x80;
        upper_boundary := if b =? 0xF4 then 0x8F else 0xBF |}, [])
  else (utf8_new, [REPLACEMENT]).

(** One byte through the handler.  A byte outside the expected
    continuation range yields U+FFFD and is then handled again from the
    reset state. *)
Definition utf8_handler (d : Utf8) (b : N) : Utf8 * list N :=
  if bytes_needed d =? 0 then utf8_lead b
  else if (b <? lower_boundary d) || (upper_boundary d <? b) then
    let '(d', out) := utf8_lead b in (d', REPLACEMENT :: out)
  else
    let cp := N.lor (N.shiftl (code_point d) 6) (N.land b 0x3F) in
    if bytes_seen d + 1 =? bytes_needed d then (utf8_new, [cp])
    else ({| code_point := cp; bytes_seen := bytes_seen d + 1;
             bytes_needed := bytes_needed d;
             lower_boundary := 0x80; upper_boundary := 0xBF |}, []).

(** UTF-16 code units of a scalar value. *)
Definition utf16 (cp : N) : jsstring :=
  if cp <? 0x10000 then [cp]
  else [0xD800 + (cp - 0x10000) / 0x400; 0xDC00 + (cp - 0x10000) mod 0x400].

(** [new TextDecoder()]: UTF-8, not fatal, byte order mark not ignored. *)
Record t := { utf8 : Utf8; BOM_seen : bool }.

Definition new : t := {| utf8 := utf8_new; BOM_seen := false |}.

(** Serialising one scalar value: the first one is dropped when it is
    the byte order mark. *)
Definition serialize (bom_seen : bool) (cp : N) : bool * jsstring :=
  if bom_seen then (true, utf16 cp)
  else (true, if cp =? 0xFEFF then [] else utf16 cp).

Fixpoint serialize_all (bom_seen : bool) (cps : list N) : bool * jsstring :=
  match cps with
  | [] => (bom_seen, [])
  | cp :: rest =>
      let '(b1, o1) := serialize bom_seen cp in
      let '(b2, o2) := serialize_all b1 rest in
      (b2, o1 ++ o2)
  end.

Definition decode_byte (d : t) (b : Byte.byte) : t * jsstring :=
  let '(u, cps) := utf8_handler (utf8 d) (Byte.to_N b) in
  let '(bom, out) := serialize_all (BOM_seen d) cps in
  ({| utf8 := u; BOM_seen := bom |}, out).

(** The bytes of one chunk, in order. *)
Fixpoint decode_bytes (d : t) (bs : list Byte.byte) : t * jsstring :=
  match bs with
  | [] => (d, [])
  | b :: rest =>
      let '(d1, o1) := decode_byte d b in
      let '(d2, o2) := decode_bytes d1 rest in
      (d2, o1 ++ o2)
  end.

(** End of input: pending bytes of an unfinished character become one
    U+FFFD, and the decoder starts afresh on its next use. *)
Definition flush (d : t) : t * jsstring :=
  if bytes_needed (utf8 d) =? 0 then (new, [])
  else (new, snd (serialize_all (BOM_seen d) [REPLACEMENT])).

(** [decoder.decode(chunk, { stream })] *)
Definition decode (d : t) (chunk : list Byte.byte) (stream : bool) : t * jsstring :=
  let '(d1, o1) := decode_bytes d chunk in
  if stream then (d1, o1)
  else let '(d2, o2) := flush d1 in (d2, o1 ++ o2).

End TextDecoder.

(* ================================================================== *)
(** * JavaScript values and JSON.parse *)
(* ================================================================== *)

Module Json.

Local Open Scope N_scope.

(** The values the consumer handles: [undefined] and what [JSON.parse]
    builds.  A number keeps the numeral it was parsed from; what the
    host makes of the denoted double (truthiness, printing) is left to
    [Host] below.  An object is its own properties in creation order,
    each key once. *)
#[warnings="-register-all"] Inductive JSValue :=
| JUndefined
| JNull
| JBool (b : bool)
| JNum (numeral : jsstring)
| JStr (s : jsstring)
| JArr (items : list JSValue)
| JObj (props : list (jsstring * JSValue)).

(** Own property [key] of an object; [undefined] when absent. *)
Fixpoint obj_get (key : jsstring) (props : list (jsstring * JSValue)) : JSValue :=
  match props with
  | [] => JUndefined
  | (k, v) :: rest => if eqb k key then v else obj_get key rest
  end.

(** Defining property [key]: an existing key keeps its place. *)
Fixpoint obj_set (key : jsstring) (v : JSValue) (props : list (jsstring * JSValue))
  : list (jsstring * JSValue) :=
  match props with
  | [] => [(key, v)]
  | (k, w) :: rest =>
      if eqb k key then (k, v) :: rest else (k, w) :: obj_set key v rest
  end.

Definition is_ws (c : N) : bool :=
  (c =? 32) || (c =? 9) || (c =? 10) || (c =? 13).

Fixpoint skip_ws (s : jsstring) : jsstring :=
  match s with
  | c :: s' => if is_ws c then skip_ws s' else s
  | [] => []
  end.

Definition is_digit (c : N) : bool := (48 <=? c) && (c <=? 57).

Definition hex_digit (c : N) : option N :=
  if is_digit c then Some (c - 48)
  else if (97 <=? c) && (c <=? 102) then Some (c - 87)
  else if (65 <=? c) && (c <=? 70) then Some (c - 55)
  else None.

Definition hex4 (a b c d : N) : option N :=
  match hex_digit a, hex_digit b, hex_digit c, hex_digit d with
  | Some x, Some y, Some z, Some w => Some (((x * 16 + y) * 16 + z) * 16 + w)
  | _, _, _, _ => None
  end.

(** The code unit of a single-character escape. *)
Definition simple_escape (e : N) : option N :=
  if e =? 34 then Some 34        (* quotation mark *)
  else if e =? 92 then Some 92   (* reverse solidus *)
  else if e =? 47 then Some 47   (* solidus *)
  else if e =? 98 then Some 8    (* b: backspace *)
  else if e =? 102 then Some 12  (* f: form feed *)
  else if e =? 110 then Some 10  (* n: line feed *)
  else if e =? 114 then Some 13  (* r: carriage return *)
  else if e =? 116 then Some 9   (* t: tab *)
  else None.

(** A string literal after its opening quote: its value and the rest. *)
Fixpoint parse_string_body (s : jsstring) : option (jsstring * jsstring) :=
  match s with
  | [] => None
  | c :: s1 =>
      if c =? 34 then Some ([], s1)
      else if c <? 32 then None
      else if c =? 92 then
        match s1 with
        | [] => None
        | e :: s2 =>
            if e =? 117 then
              match s2 with
              | h1 :: h2 :: h3 :: h4 :: s3 =>
                  match hex4 h1 h2 h3 h4 with
                  | Some u =>
                      match parse_string_body s3 with
                      | Some (str, r) => Some (u :: str, r)
                      | None => None
                      end
                  | None => None
                  end
              | _ => None
              end
            else
              match simple_escape e with
              | Some x =>
                  match parse_string_body s2 with
                  | Some (str, r) => Some (x :: str, r)
                  | None => None
                  end
              | None => None
              end
        end
      else
        match parse_string_body s1 with
        | Some (str, r) => Some (c :: str, r)
        | None => None
        end
  end.

Fixpoint take_digits (s : jsstring) : jsstring * jsstring :=
  match s with
  | c :: s' =>
      if is_digit c then let '(ds, r) := take_digits s' in (c :: ds, r)
      else ([], s)
  | [] => ([], [])
  end.

(** A JSON numeral: optional minus, integer part without leading zeros,
    optional fraction, optional exponent; the numeral and the rest. *)
Definition parse_number (s : jsstring) : option (jsstring * jsstring) :=
  let '(sign, s1) :=
    match s with
    | c :: r => if c =? 45 then ([c], r) else ([], s)
    | [] => ([], s)
    end in
  let int_part :=
    match s1 with
    | c :: r =>
        if c =? 48 then Some ([c], r)
        else if is_digit c then let '(ds, r') := take_digits r in Some (c :: ds, r')
        else None
    | [] => None
    end in
  match int_part with
  | None => None
  | Some (ip, s2) =>
      let frac_part :=
        match s2 with
        | c :: r =>
            if c =? 46 then
              match take_digits r with
              | ([], _) => None
              | (ds, r') => Some (c :: ds, r')
              end
            else Some ([], s2)
        | [] => Some ([], s2)
        end in
      match frac_part with
      | None => None
      | Some (fp, s3) =>
          let exp_part :=
            match s3 with
            | c :: r =>
                if (c =? 101) || (c =? 69) then
                  let '(es, r1) :=
                    match r with
                    | g :: r' => if (g =? 43) || (g =? 45) then ([g], r') else ([], r)
                    | [] => ([], r)
                    end in
                  match take_digits r1 with
                  | ([], _) => None
                  | (ds, r2) => Some (c :: es ++ ds, r2)
                  end
                else Some ([], s3)
            | [] => Some ([], s3)
            end in
          match exp_part with
          | None => None
          | Some (ep, s4) => Some (sign ++ ip ++ fp ++ ep, s4)
          end
      end
  end.

(** A keyword ([true], [false], [null]) at the head of the input. *)
Definition parse_keyword (kw : string) (v : JSValue) (s : jsstring)
  : option (JSValue * jsstring) :=
  if startsWith (lit kw) s then Some (v, skipn (List.length (lit kw)) s) else None.

(** Recursive descent over the JSON grammar.  Every call consumes at
    least one code unit before it recurses, so [fuel] above the length
    of the input is never exhausted ([parse_complete] below). *)
Fixpoint parse_value (fuel : nat) (s : jsstring) : option (JSValue * jsstring) :=
  match fuel with
  | O => None
  | S f =>
      match skip_ws s with
      | [] => None
      | c :: r =>
          if c =? 123 then                      (* { *)
            match skip_ws r with
            | d :: r' =>
                if d =? 125 then Some (JObj [], r')
                else parse_members f [] (skip_ws r)
            | [] => None
            end
          else if c =? 91 then                  (* [ *)
            match skip_ws r with
            | d :: r' =>
                if d =? 93 then Some (JArr [], r')
                else parse_elements f [] (skip_ws r)
            | [] => None
            end
          else if c =? 34 then
            match parse_string_body r with
            | Some (str, r') => Some (JStr str, r')
            | None => None
            end
          else if c =? 116 then parse_keyword "true" (JBool true) (c :: r)
          else if c =? 102 then parse_keyword "false" (JBool false) (c :: r)
          else if c =? 110 then parse_keyword "null" JNull (c :: r)
          else
            match parse_number (c :: r) with
            | Some (num, r') => Some (JNum num, r')
            | None => None
            end
      end
  end

with parse_members (fuel : nat) (acc : list (jsstring * JSValue)) (s : jsstring)
  : option (JSValue * jsstring) :=
  match fuel with
  | O => None
  | S f =>
      match skip_ws s with
      | c :: r =>
          if c =? 34 then
            match parse_string_body r with
            | Some (key, r1) =>
                match skip_ws r1 with
                | colon :: r2 =>
                    if colon =? 58 then
                      match parse_value f r2 with
                      | Some (v, r3) =>
                          match skip_ws r3 with
                          | d :: r4 =>
                              if d =? 44 then parse_members f (obj_set key v acc) r4
                              else if d =? 125 then Some (JObj (obj_set key v acc), r4)
                              else None
                          | [] => None
                          end
                      | None => None
                      end
                    else None
                | [] => None
                end
            | None => None
            end
          else None
      | [] => None
      end
  end

with parse_elements (fuel : nat) (acc : list JSValue) (s : jsstring)
  : option (JSValue * jsstring) :=
  match fuel with
  | O => None
  | S f =>
      match parse_value f s with
      | Some (v, r) =>
          match skip_ws r with
          | d :: r' =>
              if d =? 44 then parse_elements f (acc ++ [v]) r'
              else if d =? 93 then Some (JArr (acc ++ [v]), r')
              else None
          | [] => None
          end
      | None => None
      end
  end.

(** [JSON.parse(text)]; [None] stands for the thrown [SyntaxError]. *)
Definition parse (text : jsstring) : option JSValue :=
  match parse_value (S (List.length text)) text with
  | Some (v, r) => match skip_ws r with [] => Some v | _ :: _ => None end
  | None => None
  end.

End Json.
Import Json.

(* ================================================================== *)
(** * Completions, the host, and the operators used by the consumer *)
(* ================================================================== *)

(** A thrown [Error] object; the handlers only read its [message]. *)
Record Error := { message : jsstring }.

(** Outcome of evaluating an expression or statement that may throw. *)
Inductive Completion (A : Type) :=
| Normal (a : A)
| Throw (e : Error).
Arguments Normal {A} a.
Arguments Throw {A} e.

(** What the model leaves to the JavaScript engine: the semantics of
    numbers, the printing of values that are not strings (a conversion
    that would itself throw is outside the model), and the wording of
    the errors the engine raises. *)
Record Host := {
  (** [ToBoolean] of the number a JSON numeral denotes *)
  number_truthy : jsstring -> bool;
  (** [ToString] of a value that is not a string *)
  ToString_other : JSValue -> jsstring;
  (** [JSON.stringify(v)] as interpolated into a template literal *)
  JSON_stringify : JSValue -> jsstring;
  (** message of the [SyntaxError] that [JSON.parse] throws on a text *)
  SyntaxError_message : jsstring -> jsstring;
  (** message of the [TypeError] for reading a property of [null] or
      [undefined] *)
  TypeError_message : JSValue -> jsstring -> jsstring
}.

Section Operators.

Variable host : Host.

(** [ToBoolean] *)
Definition truthy (v : JSValue) : bool :=
  match v with
  | JUndefined | JNull => false
  | JBool b => b
  | JNum n => number_truthy host n
  | JStr s => match s with [] => false | _ :: _ => true end
  | JArr _ | JObj _ => true
  end.

(** [a || b] *)
Definition js_or (a b : JSValue) : JSValue := if truthy a then a else b.

(** [v?.key], for the keys the consumer reads ([text], [tool_call],
    [name], [tool], [message], [detail], [error], [memories]): none of
    them is defined by a built-in prototype, so only an object's own
    property can answer. *)
Definition get_opt (v : JSValue) (key : string) : JSValue :=
  match v with
  | JObj props => obj_get (lit key) props
  | _ => JUndefined
  end.

(** [v.key]: as [v?.key], but reading from [null] or [undefined] throws. *)
Definition get (v : JSValue) (key : string) : Completion JSValue :=
  match v with
  | JUndefined | JNull => Throw {| message := TypeError_message host v (lit key) |}
  | _ => Normal (get_opt v key)
  end.

(** [ToString], as applied by template literals and by [new Error(v)]. *)
Definition ToString (v : JSValue) : jsstring :=
  match v with
  | JStr s => s
  | _ => ToString_other host v
  end.

(** [new Error(v)] *)
Definition new_Error (v : JSValue) : Error := {| message := ToString v |}.

(** [JSON.parse(text)] *)
Definition JSON_parse (text : jsstring) : Completion JSValue :=
  match Json.parse text with
  | Some v => Normal v
  | None => Throw {| message := SyntaxError_message host text |}
  end.

End Operators.

(* ================================================================== *)
(** * parseSseBlock *)
(* ================================================================== *)

Record SseEvent := { event : jsstring; payload : JSValue }.

(** One turn of [for (const line of lines)]: the two [if]s. *)
Definition parse_line (acc : jsstring * list jsstring) (line : jsstring)
  : jsstring * list jsstring :=
  let '(event, data) := acc in
  let event := if startsWith (lit "event:") line then trim (slice 6 line) else event in
  let data := if startsWith (lit "data:") line then data ++ [trim (slice 5 line)] else data in
  (event, data).

(** [event] and [data] after the loop over the lines of a block. *)
Definition block_fields (block : jsstring) : jsstring * list jsstring :=
  fold_left parse_line (split [LF] block) (lit "message", []).

(** [try { payload = JSON.parse(raw); } catch { payload = { text: raw }; }] *)
Definition parse_payload (host : Host) (raw : jsstring) : Completion JSValue :=
  match JSON_parse host raw with
  | Normal v => Normal v
  | Throw _ => Normal (JObj [(lit "text", JStr raw)])
  end.

Definition parseSseBlock (host : Host) (block : jsstring) : Completion (option SseEvent) :=
  match block with
  | [] => Normal None
  | _ :: _ =>
      let '(event, data) := block_fields block in
      let raw := join [LF] data in
      match (match raw with
             | [] => Normal (JObj [])
             | _ :: _ => parse_payload host raw
             end) with
      | Normal payload => Normal (Some {| event := event; payload := payload |})
      | Throw e => Throw e
      end
  end.

(* ================================================================== *)
(** * Component state and the effects of [send] *)
(* ================================================================== *)

Inductive Role := user | assistant.

(** An entry of [messages].  The user entries are created without an
    [id]; [m.id] is then [undefined]. *)
Record Message := { id : option jsstring; role : Role; content : jsstring }.

(** The [useState] cells of [App] that [send] reads or sets. *)
Record AppState := {
  text : jsstring;
  messages : list Message;
  semantic : JSValue;
  loading : bool
}.

(** Statements of [send]: they update the component state and complete
    normally or by a throw; updates made before a throw stay. *)
Definition M (A : Type) : Type := AppState -> Completion A * AppState.

Definition ret {A} (a : A) : M A := fun st => (Normal a, st).

Definition bind {A B} (c : M A) (k : A -> M B) : M B :=
  fun st =>
    match c st with
    | (Normal a, st') => k a st'
    | (Throw e, st') => (Throw e, st')
    end.

Declare Scope js_scope.
Delimit Scope js_scope with js.
Notation "x <- c ;; k" := (bind c (fun x => k))
  (at level 61, c at next level, right associativity) : js_scope.
Notation "c ;; k" := (bind c (fun _ => k))
  (at level 61, right associativity) : js_scope.
Local Open Scope js_scope.

Definition throw {A} (e : Error) : M A := fun st => (Throw e, st).

(** An expression that may throw, evaluated as a statement. *)
Definition lift {A} (c : Completion A) : M A := fun st => (c, st).

(** [try { body } catch (err) { handler }] *)
Definition try_catch {A} (body : M A) (handler : Error -> M A) : M A :=
  fun st =>
    match body st with
    | (Normal a, st') => (Normal a, st')
    | (Throw e, st') => handler e st'
    end.

(** [try { body } finally { final }], [final] completing normally. *)
Definition try_finally {A} (body : M A) (final : M unit) : M A :=
  fun st =>
    match body st with
    | (c, st') =>
        match final st' with
        | (Normal _, st'') => (c, st'')
        | (Throw e, st'') => (Throw e, st'')
        end
    end.

(** [for (const x of xs) { body }] *)
Fixpoint for_each {A} (body : A -> M unit) (xs : list A) : M unit :=
  match xs with
  | [] => ret tt
  | x :: rest => body x ;; for_each body rest
  end.

Definition setText (v : jsstring) : M unit :=
  fun st => (Normal tt, {| text := v; messages := messages st;
                           semantic := semantic st; loading := loading st |}).

Definition setLoading (v : bool) : M unit :=
  fun st => (Normal tt, {| text := text st; messages := messages st;
                           semantic := semantic st; loading := v |}).

Definition setSemantic (v : JSValue) : M unit :=
  fun st => (Normal tt, {| text := text st; messages := messages st;
                           semantic := v; loading := loading st |}).

(** [setMessages((prev) => f(prev))] *)
Definition setMessages (f : list Message -> list Message) : M unit :=
  fun st => (Normal tt, {| text := text st; messages := f (messages st);
                           semantic := semantic st; loading := loading st |}).

(** [m.id === assistantId] *)
Definition id_is (assistantId : jsstring) (m : Message) : bool :=
  match id m with
  | Some i => eqb i assistantId
  | None => false
  end.

(** [{ ...m, content: c }] *)
Definition with_content (m : Message) (c : jsstring) : Message :=
  {| id := id m; role := role m; content := c |}.

(** [prev.map((m) => (m.id === assistantId ? { ...m, content: f(m) } : m))] *)
Definition update_assistant (assistantId : jsstring) (f : Message -> jsstring)
  (prev : list Message) : list Message :=
  map (fun m => if id_is assistantId m then with_content m (f m) else m) prev.

(* ================================================================== *)
(** * The network as seen by one call of [send] *)
(* ================================================================== *)

(** How the body stream ends: [{ done: true, value }] or a rejected
    [read()]. *)
Inductive StreamEnd :=
| Completed (value : option (list Byte.byte))
| ReadFailed (err : Error).

(** A response body: the chunks [read()] resolves to with [done: false],
    in order, and the end of the stream. *)
Record Body := { chunks : list (list Byte.byte); stream_end : StreamEnd }.

Record Response := { status : N; body : option Body }.

(** [r.ok] *)
Definition ok (r : Response) : bool := ((200 <=? status r) && (status r <=? 299))%N.

(** Outcome of [await fetch(...)]. *)
Inductive Fetched :=
| Rejected (err : Error)
| Resolved (r : Response).

(** The answers of the outside world during one call: the clock, the
    reply to the POST on [/chat/stream], the reply to the GET on
    [/memories/semantic]. *)
Record World := {
  Date_now : N;
  chat_stream : Fetched;
  memories_semantic : Fetched
}.

Definition fetch (f : Fetched) : Completion Response :=
  match f with
  | Rejected err => Throw err
  | Resolved r => Normal r
  end.

Definition bytes_or_empty (v : option (list Byte.byte)) : list Byte.byte :=
  match v with Some bs => bs | None => [] end.

(** [await r.json()]: the whole body, UTF-8 decoded, through [JSON.parse]. *)
Definition Response_json (host : Host) (r : Response) : Completion JSValue :=
  match body r with
  | None => JSON_parse host []
  | Some b =>
      match stream_end b with
      | ReadFailed err => Throw err
      | Completed v =>
          JSON_parse host
            (snd (TextDecoder.decode TextDecoder.new
                    (concat (chunks b) ++ bytes_or_empty v) false))
      end
  end.

(* ================================================================== *)
(** * send *)
(* ================================================================== *)

Section Send.

Variable host : Host.

(** The body of [if (evt.event === "tool_call") ... else if ...]. *)
Definition dispatch (assistantId : jsstring) (evt : SseEvent) : M unit :=
  if eqb (event evt) (lit "tool_call") then
    let toolName :=
      js_or host (get_opt (get_opt (payload evt) "tool_call") "name")
        (js_or host (get_opt (payload evt) "tool") (JStr (lit "tool"))) in
    setMessages (update_assistant assistantId (fun m =>
      content m ++ [LF] ++ lit "[tool:" ++ ToString host toolName ++ lit "] "
        ++ JSON_stringify host (payload evt)))
  else if eqb (event evt) (lit "token") then
    let token := js_or host (get_opt (payload evt) "text") (JStr []) in
    setMessages (update_assistant assistantId (fun m =>
      content m ++ ToString host token))
  else if eqb (event evt) (lit "error") then
    throw (new_Error host
             (js_or host (get_opt (payload evt) "message") (JStr (lit "Stream error"))))
  else ret tt.

(** One turn of [for (const block of blocks)]. *)
Definition handle_block (assistantId : jsstring) (block : jsstring) : M unit :=
  evt <- lift (parseSseBlock host block) ;;
  match evt with
  | None => ret tt
  | Some evt => dispatch assistantId evt
  end.

(** [{ done, value }] *)
Record ReadResult := { done : bool; value : option (list Byte.byte) }.

(** The variables of the read loop: [buffer] and the state of [decoder]. *)
Record LoopState := { buffer : jsstring; decoder : TextDecoder.t }.

(** The body of [while (!done)] after [read] has resolved. *)
Definition loop_body (assistantId : jsstring) (read : ReadResult) (ls : LoopState)
  : M LoopState :=
  let '(dec, txt) :=
    TextDecoder.decode (decoder ls) (bytes_or_empty (value read)) (negb (done read)) in
  let buffer1 := buffer ls ++ txt in
  let '(blocks, last_block) := pop (split [LF; LF] buffer1) in
  let buffer2 := match last_block with Some s => s | None => [] end in
  for_each (handle_block assistantId) blocks ;;
  ret {| buffer := buffer2; decoder := dec |}.

(** [while (!done) { const read = await reader.read(); ... }] over the
    reads the body stream still has to give. *)
Fixpoint read_loop (assistantId : jsstring) (pending : list (list Byte.byte))
  (e : StreamEnd) (ls : LoopState) : M unit :=
  match pending with
  | chunk :: rest =>
      ls' <- loop_body assistantId {| done := false; value := Some chunk |} ls ;;
      read_loop assistantId rest e ls'
  | [] =>
      match e with
      | ReadFailed err => throw err
      | Completed v =>
          _ <- loop_body assistantId {| done := true; value := v |} ls ;;
          ret tt
      end
  end.

Definition loadSemantic (w : World) : M unit :=
  r <- lift (fetch (memories_semantic w)) ;;
  data <- lift (Response_json host r) ;;
  memories <- lift (get host data "memories") ;;
  setSemantic (js_or host memories (JArr [])).

(** [data.detail || data.error || "Request failed"] *)
Definition failure_text (data : JSValue) : Completion JSValue :=
  match get host data "detail" with
  | Throw e => Throw e
  | Normal detail =>
      if truthy host detail then Normal detail
      else
        match get host data "error" with
        | Throw e => Throw e
        | Normal error =>
            if truthy host error then Normal error
            else Normal (JStr (lit "Request failed"))
        end
  end.

(** The [try] block.  The test [!r.ok || !r.body] sends every response
    but a successful one with a body to the failure branch. *)
Definition send_try (w : World) (assistantId : jsstring) : M unit :=
  r <- lift (fetch (chat_stream w)) ;;
  match (if ok r then body r else None) with
  | None =>
      data <- lift (Response_json host r) ;;
      v <- lift (failure_text data) ;;
      throw (new_Error host v)
  | Some b =>
      read_loop assistantId (chunks b) (stream_end b)
        {| buffer := []; decoder := TextDecoder.new |} ;;
      loadSemantic w
  end.

(** The [catch] block. *)
Definition send_catch (assistantId : jsstring) (err : Error) : M unit :=
  setMessages (update_assistant assistantId (fun _ => lit "Error: " ++ message err)).

(** [`a-${Date.now()}`] *)
Definition new_assistantId (w : World) : jsstring := lit "a-" ++ of_N (Date_now w).

Definition send (w : World) : M unit :=
  fun st =>
    match trim (text st) with
    | [] => (Normal tt, st)
    | _ :: _ =>
        if loading st then (Normal tt, st)
        else
          (let msg := trim (text st) in
           setText [] ;;
           setLoading true ;;
           let assistantId := new_assistantId w in
           setMessages (fun prev =>
             prev ++ [ {| id := None; role := user; content := msg |};
                       {| id := Some assistantId; role := assistant; content := [] |} ]) ;;
           try_finally
             (try_catch (send_try w assistantId) (send_catch assistantId))
             (setLoading false)) st
    end.

End Send.

(* ================================================================== *)
(** * Notions used in the statements *)
(* ================================================================== *)

(** The loop variables before the first read. *)
Definition loop_start : LoopState :=
  {| buffer := []; decoder := TextDecoder.new |}.

(** The frames closed by the time [bytes] more have been decoded. *)
Definition closed_frames (ls : LoopState) (bytes : list Byte.byte) : list jsstring :=
  removelast (split [LF; LF]
    (buffer ls ++ snd (TextDecoder.decode (decoder ls) bytes true))).

(** The loop variables after [bytes] more have been decoded. *)
Definition advance (ls : LoopState) (bytes : list Byte.byte) : LoopState :=
  {| buffer := last (split [LF; LF]
       (buffer ls ++ snd (TextDecoder.decode (decoder ls) bytes true))) [];
     decoder := fst (TextDecoder.decode (decoder ls) bytes true) |}.

(** All the text the decoder yields for a body stream: flushed when the
    stream completes, not when a read fails. *)
Definition decoded_text (b : Body) : jsstring :=
  match stream_end b with
  | Completed v =>
      snd (TextDecoder.decode TextDecoder.new
             (concat (chunks b) ++ bytes_or_empty v) false)
  | ReadFailed _ =>
      snd (TextDecoder.decode TextDecoder.new (concat (chunks b)) true)
  end.

(** The complete frames of a body stream: every segment of its text but
    the last. *)
Definition frames_of (b : Body) : list jsstring :=
  removelast (split [LF; LF] (decoded_text b)).

(** How the read loop ends once every frame has been handled. *)
Definition stream_outcome (b : Body) : M unit :=
  match stream_end b with
  | Completed _ => ret tt
  | ReadFailed err => throw err
  end.

(** The same world with the body of the [/chat/stream] response cut
    into the chunks [cs]. *)
Definition with_chunks (w : World) (cs : list (list Byte.byte)) : World :=
  {| Date_now := Date_now w;
     chat_stream :=
       match chat_stream w with
       | Rejected err => Rejected err
       | Resolved r =>
           Resolved
             {| status := status r;
                body := match body r with
                        | Some b => Some {| chunks := cs; stream_end := stream_end b |}
                        | None => None
                        end |}
       end;
     memories_semantic := memories_semantic w |}.

(** The component state with another message list. *)
Definition with_messages (st : AppState) (ms : list Message) : AppState :=
  {| text := text st; messages := ms; semantic := semantic st; loading := loading st |}.

(** A frame that parses to an [error] event. *)
Definition is_error_frame (host : Host) (block : jsstring) : bool :=
  match parseSseBlock host block with
  | Normal (Some evt) => eqb (event evt) (lit "error")
  | _ => false
  end.

(** The text field of a frame that parses to a [token] event carrying a
    string. *)
Definition token_text (host : Host) (block : jsstring) : option jsstring :=
  match parseSseBlock host block with
  | Normal (Some evt) =>
      if eqb (event evt) (lit "token") then
        match get_opt (payload evt) "text" with
        | JStr t => Some t
        | _ => None
        end
      else None
  | _ => None
  end.

(** A line of a frame that sets neither the event name nor data. *)
Definition plain_line (line : jsstring) : bool :=
  negb (startsWith (lit "event:") line) && negb (startsWith (lit "data:") line).

(** [null] or [undefined]. *)
Definition nullish (v : JSValue) : bool :=
  match v with
  | JUndefined | JNull => true
  | _ => false
  end.

(** A payload that is missing, is not an object, or is an object
    without a [text] property. *)
Definition no_text_field (p : JSValue) : bool :=
  match p with
  | JObj props => negb (existsb (fun k => eqb k (lit "text")) (map fst props))
  | _ => true
  end.

(** What an update of the message list may change: nothing but entries
    whose [id] is [assistantId], and of those neither [id] nor [role];
    the list keeps its length and order. *)
Definition frame_effect (assistantId : jsstring) (before after : list Message) : Prop :=
  length after = length before /\
  forall (i : nat) (m : Message),
    nth_error before i = Some m ->
    exists m', nth_error after i = Some m' /\
               id m' = id m /\ role m' = role m /\
               (id m <> Some assistantId -> m' = m).

(** The state in which [send] leaves the component when the turn of
    [assistantId] ends with the assistant entry showing [shown]:
    the user entry and the assistant entry appended, entries that
    already carried this [id] showing the same text. *)
Definition turn_result (st : AppState) (assistantId shown : jsstring) (sem : JSValue)
  : AppState :=
  {| text := [];
     messages :=
       update_assistant assistantId (fun _ => shown) (messages st) ++
       [ {| id := None; role := user; content := trim (text st) |};
         {| id := Some assistantId; role := assistant; content := shown |} ];
     semantic := sem;
     loading := false |}.

(** UTF-8 bytes of an ASCII literal; an apostrophe stands for a double
    quote, a vertical bar for a line feed. *)
Definition wire (s : string) : list Byte.byte :=
  map (fun a =>
         if Ascii.eqb a "'"%char then Byte.x22
         else if Ascii.eqb a "|"%char then Byte.x0a
         else byte_of_ascii a)
      (list_ascii_of_string s).

(** [ToString] of the sample host: numerals print as written. *)
Fixpoint sample_ToString (v : JSValue) : jsstring :=
  match v with
  | JUndefined => lit "undefined"
  | JNull => lit "null"
  | JBool true => lit "true"
  | JBool false => lit "false"
  | JNum n => n
  | JStr s => s
  | JArr items =>
      join [44%N]
        (map (fun x => match x with
                       | JUndefined | JNull => []
                       | _ => sample_ToString x
                       end) items)
  | JObj _ => lit "[object Object]"
  end.

(** A string literal as [JSON.stringify] quotes it; control characters
    without a short escape are left as they are. *)
Definition sample_quote (s : jsstring) : jsstring :=
  [34%N] ++
  flat_map (fun c =>
    if (c =? 34)%N then [92; 34]
    else if (c =? 92)%N then [92; 92]
    else if (c =? 10)%N then [92; 110]
    else if (c =? 13)%N then [92; 114]
    else if (c =? 9)%N then [92; 116]
    else if (c =? 8)%N then [92; 98]
    else if (c =? 12)%N then [92; 102]
    else [c])%N s
  ++ [34%N].

Fixpoint sample_stringify (v : JSValue) : jsstring :=
  match v with
  | JUndefined => lit "undefined"
  | JNull => lit "null"
  | JBool true => lit "true"
  | JBool false => lit "false"
  | JNum n => n
  | JStr s => sample_quote s
  | JArr items =>
      [91%N] ++ join [44%N] (map sample_stringify items) ++ [93%N]
  | JObj props =>
      [123%N] ++
      join [44%N] (map (fun kv => sample_quote (fst kv) ++ [58%N] ++ sample_stringify (snd kv)) props)
      ++ [125%N]
  end.

Definition nonzero_digit (c : N) : bool := ((49 <=? c) && (c <=? 57))%N.

(** A numeral up to its exponent part. *)
Fixpoint mantissa (n : jsstring) : jsstring :=
  match n with
  | [] => []
  | c :: r => if ((c =? 101) || (c =? 69))%N then [] else c :: mantissa r
  end.

(** A host to run the model on concrete inputs.  It takes numerals as
    written: one is falsy when no digit before its exponent differs
    from zero, and it prints as itself. *)
Definition sample_host : Host :=
  {| number_truthy := fun n => existsb nonzero_digit (mantissa n);
     ToString_other := sample_ToString;
     JSON_stringify := sample_stringify;
     SyntaxError_message := fun _ => lit "Unexpected token in JSON";
     TypeError_message := fun _ key =>
       lit "Cannot read properties of null (reading '" ++ key ++ lit "')" |}.

(** The component state when the [try] block of [send] is entered. *)
Definition turn_start (st : AppState) (assistantId : jsstring) : AppState :=
  {| text := [];
     messages :=
       messages st ++
       [ {| id := None; role := user; content := trim (text st) |};
         {| id := Some assistantId; role := assistant; content := [] |} ];
     semantic := semantic st;
     loading := true |}.

(** The text shown in the last entry of the list, the assistant entry
    of the latest turn. *)
Definition shown (st : AppState) : jsstring :=
  content (last (messages st) {| id := None; role := assistant; content := [] |}).

(** ** Concrete inputs *)

(** A conversation with one finished turn, and a new question typed. *)
Definition sample_state : AppState :=
  {| text := lit " hi ";
     messages :=
       [ {| id := None; role := user; content := lit "first" |};
         {| id := Some (lit "a-5"); role := assistant; content := lit "reply" |} ];
     semantic := JNull;
     loading := false |}.

(** A reply to the request for the semantic memories. *)
Definition memories_reply : Fetched :=
  Resolved {| status := 200;
              body := Some {| chunks := [wire "{'memories':[]}"];
                              stream_end := Completed None |} |}.

(** A world answering the chat request with [status] and a body. *)
Definition sample_world (status : N) (cs : list (list Byte.byte)) (e : StreamEnd) : World :=
  {| Date_now := 17;
     chat_stream := Resolved {| status := status;
                                body := Some {| chunks := cs; stream_end := e |} |};
     memories_semantic := memories_reply |}.

(** The guard of [send]: some text typed and no turn in progress. *)
Definition can_send (st : AppState) : bool :=
  match trim (text st) with
  | [] => false
  | _ :: _ => negb (loading st)
  end.

(** The value of [data.detail || data.error || "Request failed"] when
    [data] is neither [null] nor [undefined]. *)
Definition failure_value (host : Host) (data : JSValue) : JSValue :=
  js_or host (get_opt data "detail")
    (js_or host (get_opt data "error") (JStr (lit "Request failed"))).

(** A stream of one [token] frame carrying [Hello], after which the
    next read is rejected. *)
Definition hello_then_failure : World :=
  sample_world 200 [wire "event: token|data: {'text':'Hello'}||"]
    (ReadFailed {| message := lit "network error" |}).

(** The frames [He] and [llo], the first cut inside a two-byte
    character that follows it and the second inside its event name. *)
Definition hello_chunked : list (list Byte.byte) :=
  [ wire "event: token|data: {'text':'He'}||event: tok";
    wire "en|data: {'text':'llo ";
    [Byte.xc3];
    [Byte.xa9] ++ wire "'}|";
    wire "|" ].

(** A [token] frame, an [error] frame, and a [token] frame after it. *)
Definition boom_stream : list (list Byte.byte) :=
  [ wire "event: token|data: {'text':'partial'}||";
    wire "event: error|data: {'message':'boom'}||event: token|data: {'text':'late'}||" ].

(** A complete [token] frame followed by an [error] frame whose closing
    blank line never arrives. *)
Definition torn_stream : list (list Byte.byte) :=
  [ wire "event: token|data: {'text':'hi'}||event: error|data: {'message':'x'}|" ].

(** The text that handling a frame appends to the content of the
    entries of the turn: the annotation of a [tool_call] event, the
    text of a [token] event, nothing for any other frame. *)
Definition frame_delta (host : Host) (block : jsstring) : jsstring :=
  match parseSseBlock host block with
  | Normal (Some evt) =>
      if eqb (event evt) (lit "tool_call") then
        [LF] ++ lit "[tool:"
          ++ ToString host
               (js_or host (get_opt (get_opt (payload evt) "tool_call") "name")
                  (js_or host (get_opt (payload evt) "tool") (JStr (lit "tool"))))
          ++ lit "] " ++ JSON_stringify host (payload evt)
      else if eqb (event evt) (lit "token") then
        ToString host (js_or host (get_opt (payload evt) "text") (JStr []))
      else []
  | _ => []
  end.

(** A text without the code unit [c]. *)
Definition free_of (c : N) (s : jsstring) : bool :=
  forallb (fun x => negb (N.eqb c x)) s.

(** The component state with another list of semantic memories. *)
Definition with_semantic (st : AppState) (v : JSValue) : AppState :=
  {| text := text st; messages := messages st; semantic := v; loading := loading st |}.

(** A stream with a [token] frame, a [tool_call] frame, a frame of an
    unknown event and a second [token] frame. *)
Definition tool_stream : list (list Byte.byte) :=
  [ wire "event: token|data: {'text':'Let me look. '}||event: tool_call|data: {'tool':'search'}||";
    wire "event: ping|data: {}||event: token|data: {'text':'Done.'}||" ].

(** A stream that completes with [Hello], while the request for the
    semantic memories is rejected. *)
Definition memories_unreachable : World :=
  {| Date_now := 17;
     chat_stream :=
       Resolved {| status := 200;
                   body := Some {| chunks := [wire "event: token|data: {'text':'Hello'}||"];
                                   stream_end := Completed None |} |};
     memories_semantic := Rejected {| message := lit "Failed to fetch" |} |}.

(** A world whose memories endpoint answers 500 with a JSON error. *)
Definition memories_down : World :=
  {| Date_now := 17;
     chat_stream := Rejected {| message := lit "Failed to fetch" |};
     memories_semantic :=
       Resolved {| status := 500;
                   body := Some {| chunks := [wire "{'detail':'down'}"];
                                   stream_end := Completed None |} |} |}.

(** A [token] frame followed by an [error] frame without a message. *)
Definition silent_error_stream : list (list Byte.byte) :=
  [ wire "event: token|data: {'text':'so far'}||event: error|data: {}||" ].

(** A [token] frame written with CR LF line ends: no two line feeds
    follow each other in it. *)
Definition crlf_stream : list (list Byte.byte) :=
  [ wire "event: token" ++ [Byte.x0d; Byte.x0a] ++ wire "data: {'text':'hi'}"
      ++ [Byte.x0d; Byte.x0a; Byte.x0d; Byte.x0a] ].

(* ================================================================== *)
(** * Facts about the host functions *)
(* ================================================================== *)
Section SplitFacts.

Variable sep : jsstring.

Lemma jseqb_eq (a b : jsstring) : eqb a b = true <-> a = b.
Proof.
  revert b; induction a as [|x a IH]; intros [|y b]; simpl; split; intros H;
    try reflexivity; try discriminate.
  - apply andb_true_iff in H as [Hx Hab]. apply N.eqb_eq in Hx.
    apply IH in Hab. congruence.
  - injection H as -> ->. rewrite N.eqb_refl. simpl. apply IH. reflexivity.
Qed.

Lemma jseqb_refl (a : jsstring) : eqb a a = true.
Proof. apply jseqb_eq. reflexivity. Qed.

Lemma startsWith_app (p s t : jsstring) :
  startsWith p s = true -> startsWith p (s ++ t) = true.
Proof.
  revert s; induction p as [|x p IH]; intros [|y s]; simpl; intros H;
    try reflexivity; try discriminate.
  apply andb_true_iff in H as [Hx Hp]. rewrite Hx. simpl. auto.
Qed.

Lemma startsWith_length (p s : jsstring) :
  startsWith p s = true -> (length p <= length s)%nat.
Proof.
  revert s; induction p as [|x p IH]; intros [|y s]; simpl; intros H;
    try discriminate; try lia.
  apply andb_true_iff in H as [_ Hp]. apply IH in Hp. lia.
Qed.

Lemma startsWith_short (p s : jsstring) :
  (length s < length p)%nat -> startsWith p s = false.
Proof.
  intros Hlt. destruct (startsWith p s) eqn:E; [|reflexivity].
  apply startsWith_length in E. lia.
Qed.

(** A match that needs the appended text straddles the end of [s]. *)
Lemma startsWith_straddle (p s t : jsstring) :
  startsWith p s = false -> startsWith p (s ++ t) = true ->
  (length s < length p)%nat.
Proof.
  revert s; induction p as [|x p IH]; intros [|y s]; simpl; intros H1 H2;
    try discriminate; try lia.
  apply andb_true_iff in H2 as [Hx Hp]. rewrite Hx in H1. simpl in H1.
  specialize (IH _ H1 Hp). lia.
Qed.

Lemma split_scan_nonnil (k : nat) (s : jsstring) : split_scan sep k s <> [].
Proof.
  revert k; induction s as [|c s IH]; intros k; simpl; [discriminate|].
  destruct k; [|apply IH].
  destruct (startsWith sep (c :: s)); [discriminate|].
  specialize (IH 0%nat). destruct (split_scan sep 0 s); simpl; [congruence|discriminate].
Qed.

Lemma split_scan_short (s : jsstring) :
  (length s < length sep)%nat -> split_scan sep 0 s = [s].
Proof.
  induction s as [|c s IH]; intros Hlt; simpl; [reflexivity|].
  rewrite startsWith_short by exact Hlt.
  rewrite IH by (simpl in Hlt; lia). reflexivity.
Qed.

Lemma split_scan_single (s seg : jsstring) :
  split_scan sep 0 s = [seg] -> seg = s.
Proof.
  revert seg; induction s as [|c s IH]; intros seg; simpl.
  - intros H; injection H as <-; reflexivity.
  - destruct (startsWith sep (c :: s)).
    + intros H. injection H as _ H. exfalso. exact (split_scan_nonnil _ _ H).
    + destruct (split_scan sep 0 s) as [|seg1 [|seg2 X]] eqn:E; simpl; intros H.
      * exfalso. exact (split_scan_nonnil _ _ E).
      * injection H as <-. f_equal. apply IH. reflexivity.
      * discriminate.
Qed.

(** Splitting a text that arrives in two pieces: the segments closed
    inside the first piece are those of the first piece alone, and the
    scan resumes on its open last segment. *)
Lemma split_scan_app (s1 s2 : jsstring) (k : nat) :
  (k <= length s1)%nat ->
  split_scan sep k (s1 ++ s2) =
  removelast (split_scan sep k s1) ++
  split_scan sep 0 (last (split_scan sep k s1) [] ++ s2).
Proof.
  revert k; induction s1 as [|c s1 IH]; intros k Hk.
  - simpl in Hk. assert (k = 0)%nat as -> by lia. reflexivity.
  - destruct k as [|k].
    + change ((c :: s1) ++ s2) with (c :: (s1 ++ s2)).
      cbn [split_scan].
      destruct (startsWith sep (c :: s1)) eqn:E1.
      * pose proof (startsWith_app _ _ s2 E1) as E2.
        change ((c :: s1) ++ s2) with (c :: (s1 ++ s2)) in E2. rewrite E2.
        pose proof (startsWith_length _ _ E1) as Hlen. simpl in Hlen.
        rewrite IH by lia.
        pose proof (split_scan_nonnil (length sep - 1) s1) as Hnn.
        destruct (split_scan sep (length sep - 1) s1) as [|x X]; [congruence|].
        reflexivity.
      * destruct (startsWith sep (c :: s1 ++ s2)) eqn:E2.
        -- pose proof (startsWith_straddle sep (c :: s1) s2 E1 E2) as Hlt.
           pose proof (split_scan_short (c :: s1) Hlt) as Hs.
           cbn [split_scan] in Hs. rewrite E1 in Hs. rewrite Hs.
           cbn [removelast last app split_scan]. rewrite E2. reflexivity.
        -- rewrite IH by lia.
           destruct (split_scan sep 0 s1) as [|seg1 [|seg2 X]] eqn:EX.
           ++ exfalso. exact (split_scan_nonnil _ _ EX).
           ++ apply split_scan_single in EX. subst seg1.
              cbn [cons_head removelast last app split_scan]. rewrite E2. reflexivity.
           ++ reflexivity.
    + change ((c :: s1) ++ s2) with (c :: (s1 ++ s2)).
      cbn [split_scan]. apply IH. simpl in Hk. lia.
Qed.

Lemma split_app (s1 s2 : jsstring) :
  split sep (s1 ++ s2) =
  removelast (split sep s1) ++ split sep (last (split sep s1) [] ++ s2).
Proof. unfold split. apply split_scan_app. lia. Qed.

End SplitFacts.

Section JsonFacts.

Lemma skip_ws_length (s : jsstring) : length (skip_ws s) <= length s.
Proof.
  induction s as [|c s IH]; simpl; [lia|].
  destruct (is_ws c); simpl; lia.
Qed.

Lemma parse_string_body_shorter (n : nat) :
  forall s str r, length s <= n ->
    parse_string_body s = Some (str, r) -> length r < length s.
Proof.
  induction n as [|n IH]; intros s str r Hn H.
  - destruct s; [discriminate|simpl in Hn; lia].
  - destruct s as [|c s1]; [discriminate|]. cbn [parse_string_body] in H.
    simpl in Hn. simpl length.
    destruct (c =? 34)%N; [injection H as _ <-; lia|].
    destruct (c <? 32)%N; [discriminate|].
    destruct (c =? 92)%N.
    + destruct s1 as [|e s2]; [discriminate|]. simpl in Hn. simpl length.
      destruct (e =? 117)%N.
      * destruct s2 as [|h1 [|h2 [|h3 [|h4 s3]]]]; try discriminate.
        destruct (hex4 h1 h2 h3 h4); [|discriminate].
        destruct (parse_string_body s3) as [[str' r']|] eqn:E; [|discriminate].
        injection H as _ <-. simpl in Hn. apply IH in E; [|lia]. simpl. lia.
      * destruct (simple_escape e); [|discriminate].
        destruct (parse_string_body s2) as [[str' r']|] eqn:E; [|discriminate].
        injection H as _ <-. apply IH in E; lia.
    + destruct (parse_string_body s1) as [[str' r']|] eqn:E; [|discriminate].
      injection H as _ <-. apply IH in E; lia.
Qed.

Lemma take_digits_length (s : jsstring) : length (snd (take_digits s)) <= length s.
Proof.
  induction s as [|c s IH]; simpl; [lia|].
  destruct (is_digit c); [|simpl; lia].
  destruct (take_digits s); simpl in *; lia.
Qed.

Lemma parse_number_shorter (s num r : jsstring) :
  parse_number s = Some (num, r) -> length r < length s.
Proof.
  unfold parse_number.
  set (s1 := match s with
             | c :: r0 => if (c =? 45)%N then r0 else s
             | [] => s
             end).
  assert (Hs1 : length s1 <= length s)
    by (subst s1; destruct s as [|c r0]; [lia|]; destruct (c =? 45)%N; simpl; lia).
  replace (match s with
           | c :: r0 => if (c =? 45)%N then ([c], r0) else ([], s)
           | [] => ([], s)
           end) with (match s with
                      | c :: r0 => if (c =? 45)%N then [c] else []
                      | [] => []
                      end, s1)
    by (subst s1; destruct s as [|c r0]; [reflexivity|]; destruct (c =? 45)%N; reflexivity).
  clearbody s1.
  destruct s1 as [|c r1]; [discriminate|]. simpl in Hs1.
  assert (Hint : forall ip s2,
            (if (c =? 48)%N then Some ([c], r1)
             else if is_digit c
                  then let '(ds, r') := take_digits r1 in Some (c :: ds, r')
                  else None) = Some (ip, s2) -> length s2 < length s).
  { intros ip s2 H. destruct (c =? 48)%N; [injection H as _ <-; lia|].
    destruct (is_digit c); [|discriminate].
    pose proof (take_digits_length r1) as Hd.
    destruct (take_digits r1) as [ds r']. injection H as _ <-. simpl in Hd. lia. }
  destruct (if (c =? 48)%N then Some ([c], r1)
            else if is_digit c
                 then let '(ds, r') := take_digits r1 in Some (c :: ds, r')
                 else None) as [[ip s2]|]; [|discriminate].
  specialize (Hint ip s2 eq_refl).
  assert (Hfrac : forall fp s3,
            match s2 with
            | c0 :: r0 =>
                if (c0 =? 46)%N
                then match take_digits r0 with
                     | ([], _) => None
                     | (ds, r') => Some (c0 :: ds, r')
                     end
                else Some ([], s2)
            | [] => Some ([], s2)
            end = Some (fp, s3) -> length s3 <= length s2).
  { intros fp s3 H. destruct s2 as [|c0 r0]; [injection H as _ <-; lia|].
    destruct (c0 =? 46)%N; [|injection H as _ <-; lia].
    pose proof (take_digits_length r0) as Hd.
    destruct (take_digits r0) as [[|d ds] r']; [discriminate|].
    injection H as _ <-. simpl in *. lia. }
  destruct (match s2 with
            | c0 :: r0 =>
                if (c0 =? 46)%N
                then match take_digits r0 with
                     | ([], _) => None
                     | (ds, r') => Some (c0 :: ds, r')
                     end
                else Some ([], s2)
            | [] => Some ([], s2)
            end) as [[fp s3]|]; [|discriminate].
  specialize (Hfrac fp s3 eq_refl).
  destruct s3 as [|c3 r3].
  - intros H. injection H as _ <-. simpl in *. lia.
  - destruct ((c3 =? 101) || (c3 =? 69))%N.
    + set (r4 := match r3 with
                 | g :: r' => if ((g =? 43) || (g =? 45))%N then r' else r3
                 | [] => r3
                 end).
      assert (Hr4 : length r4 <= length r3)
        by (subst r4; destruct r3 as [|g r']; [lia|];
            destruct ((g =? 43) || (g =? 45))%N; simpl; lia).
      replace (match r3 with
               | g :: r' => if ((g =? 43) || (g =? 45))%N then ([g], r') else ([], r3)
               | [] => ([], r3)
               end) with (match r3 with
                          | g :: r' => if ((g =? 43) || (g =? 45))%N then [g] else []
                          | [] => []
                          end, r4)
        by (subst r4; destruct r3 as [|g r']; [reflexivity|];
            destruct ((g =? 43) || (g =? 45))%N; reflexivity).
      clearbody r4.
      pose proof (take_digits_length r4) as Hd.
      destruct (take_digits r4) as [[|d ds] r5]; [discriminate|].
      intros H. injection H as _ <-. simpl in *. lia.
    + intros H. injection H as _ <-. simpl in *. lia.
Qed.

Lemma parse_keyword_shorter (kw : string) (v v' : JSValue) (s r : jsstring) :
  lit kw <> [] ->
  parse_keyword kw v s = Some (v', r) -> length r < length s.
Proof.
  unfold parse_keyword. intros Hkw H.
  destruct (startsWith (lit kw) s) eqn:E; [|discriminate].
  injection H as _ <-. apply startsWith_length in E.
  rewrite length_skipn. destruct (lit kw); [congruence|]. simpl in *. lia.
Qed.

(** A successful parse consumes input. *)
Lemma parse_value_shorter (f : nat) :
  (forall s v r, parse_value f s = Some (v, r) -> length r < length s) /\
  (forall acc s v r, parse_members f acc s = Some (v, r) -> length r < length s) /\
  (forall acc s v r, parse_elements f acc s = Some (v, r) -> length r < length s).
Proof.
  induction f as [|f (IHv & IHm & IHe)];
    [repeat split; intros; discriminate|].
  split; [|split].
  - intros s v r H. cbn [parse_value] in H.
    pose proof (skip_ws_length s) as Hs.
    destruct (skip_ws s) as [|c r0]; [discriminate|]. simpl in Hs.
    destruct (c =? 123)%N.
    { pose proof (skip_ws_length r0) as Hr.
      destruct (skip_ws r0) as [|d r'] eqn:E; [discriminate|].
      destruct (d =? 125)%N; [injection H as _ <-; simpl in Hr; lia|].
      apply IHm in H. lia. }
    destruct (c =? 91)%N.
    { pose proof (skip_ws_length r0) as Hr.
      destruct (skip_ws r0) as [|d r'] eqn:E; [discriminate|].
      destruct (d =? 93)%N; [injection H as _ <-; simpl in Hr; lia|].
      apply IHe in H. lia. }
    destruct (c =? 34)%N.
    { destruct (parse_string_body r0) as [[str r']|] eqn:E; [|discriminate].
      injection H as _ <-.
      apply (parse_string_body_shorter (length r0)) in E; lia. }
    destruct (c =? 116)%N.
    { apply parse_keyword_shorter in H; [simpl in H; lia|discriminate]. }
    destruct (c =? 102)%N.
    { apply parse_keyword_shorter in H; [simpl in H; lia|discriminate]. }
    destruct (c =? 110)%N.
    { apply parse_keyword_shorter in H; [simpl in H; lia|discriminate]. }
    destruct (parse_number (c :: r0)) as [[num r']|] eqn:E; [|discriminate].
    injection H as _ <-. apply parse_number_shorter in E. simpl in E. lia.
  - intros acc s v r H. cbn [parse_members] in H.
    pose proof (skip_ws_length s) as Hs.
    destruct (skip_ws s) as [|c r0]; [discriminate|]. simpl in Hs.
    destruct (c =? 34)%N; [|discriminate].
    destruct (parse_string_body r0) as [[key r1]|] eqn:E; [|discriminate].
    apply (parse_string_body_shorter (length r0)) in E; [|lia].
    pose proof (skip_ws_length r1) as Hr1.
    destruct (skip_ws r1) as [|colon r2]; [discriminate|]. simpl in Hr1.
    destruct (colon =? 58)%N; [|discriminate].
    destruct (parse_value f r2) as [[v0 r3]|] eqn:Ev; [|discriminate].
    apply IHv in Ev.
    pose proof (skip_ws_length r3) as Hr3.
    destruct (skip_ws r3) as [|d r4]; [discriminate|]. simpl in Hr3.
    destruct (d =? 44)%N; [apply IHm in H; lia|].
    destruct (d =? 125)%N; [|discriminate].
    injection H as _ <-. lia.
  - intros acc s v r H. cbn [parse_elements] in H.
    destruct (parse_value f s) as [[v0 r0]|] eqn:Ev; [|discriminate].
    apply IHv in Ev.
    pose proof (skip_ws_length r0) as Hr0.
    destruct (skip_ws r0) as [|d r1]; [discriminate|]. simpl in Hr0.
    destruct (d =? 44)%N; [apply IHe in H; lia|].
    destruct (d =? 93)%N; [|discriminate].
    injection H as _ <-. lia.
Qed.

Lemma members_tail_shorter (f : nat) (acc : list (jsstring * JSValue))
  (r3 : jsstring) (v : JSValue) (r : jsstring) :
  match skip_ws r3 with
  | d :: r4 =>
      if (d =? 44)%N then parse_members f acc r4
      else if (d =? 125)%N then Some (JObj acc, r4)
      else None
  | [] => None
  end = Some (v, r) -> length r < length r3.
Proof.
  pose proof (skip_ws_length r3) as Hr3.
  destruct (skip_ws r3) as [|d r4]; [discriminate|]. simpl in Hr3.
  destruct (d =? 44)%N.
  - intros H. apply (proj1 (proj2 (parse_value_shorter f))) in H. lia.
  - destruct (d =? 125)%N; [|discriminate]. intros H. injection H as _ <-. lia.
Qed.

Lemma elements_tail_shorter (f : nat) (acc : list JSValue)
  (r0 : jsstring) (v : JSValue) (r : jsstring) :
  match skip_ws r0 with
  | d :: r1 =>
      if (d =? 44)%N then parse_elements f acc r1
      else if (d =? 93)%N then Some (JArr acc, r1)
      else None
  | [] => None
  end = Some (v, r) -> length r < length r0.
Proof.
  pose proof (skip_ws_length r0) as Hr0.
  destruct (skip_ws r0) as [|d r1]; [discriminate|]. simpl in Hr0.
  destruct (d =? 44)%N.
  - intros H. apply (proj2 (proj2 (parse_value_shorter f))) in H. lia.
  - destruct (d =? 93)%N; [|discriminate]. intros H. injection H as _ <-. lia.
Qed.

(** Fuel that covers the code units consumed is enough: whatever any
    amount of fuel yields, it yields too. *)
Lemma parse_value_fuel (f : nat) :
  (forall s v r g, parse_value f s = Some (v, r) -> length s - length r <= g ->
                   parse_value g s = Some (v, r)) /\
  (forall acc s v r g, parse_members f acc s = Some (v, r) ->
                       length s - length r <= g ->
                       parse_members g acc s = Some (v, r)) /\
  (forall acc s v r g, parse_elements f acc s = Some (v, r) ->
                       length s - length r <= g ->
                       parse_elements g acc s = Some (v, r)).
Proof.
  induction f as [|f (IHv & IHm & IHe)];
    [repeat split; intros; discriminate|].
  split; [|split].
  - intros s v r g H Hg.
    pose proof (proj1 (parse_value_shorter (S f)) s v r H) as Hshort.
    destruct g as [|g]; [lia|].
    cbn [parse_value] in *.
    pose proof (skip_ws_length s) as Hs.
    destruct (skip_ws s) as [|c r0]; [discriminate|]. simpl in Hs.
    destruct (c =? 123)%N.
    { pose proof (skip_ws_length r0) as Hr.
      destruct (skip_ws r0) as [|d r'] eqn:E; [discriminate|].
      destruct (d =? 125)%N; [exact H|].
      apply IHm; [exact H|cbn [length] in *; lia]. }
    destruct (c =? 91)%N.
    { pose proof (skip_ws_length r0) as Hr.
      destruct (skip_ws r0) as [|d r'] eqn:E; [discriminate|].
      destruct (d =? 93)%N; [exact H|].
      apply IHe; [exact H|cbn [length] in *; lia]. }
    exact H.
  - intros acc s v r g H Hg.
    pose proof (proj1 (proj2 (parse_value_shorter (S f))) acc s v r H) as Hshort.
    destruct g as [|g]; [lia|].
    cbn [parse_members] in *.
    pose proof (skip_ws_length s) as Hs.
    destruct (skip_ws s) as [|c r0]; [discriminate|]. simpl in Hs.
    destruct (c =? 34)%N; [|discriminate].
    destruct (parse_string_body r0) as [[key r1]|] eqn:E; [|discriminate].
    apply (parse_string_body_shorter (length r0)) in E; [|lia].
    pose proof (skip_ws_length r1) as Hr1.
    destruct (skip_ws r1) as [|colon r2]; [discriminate|]. simpl in Hr1.
    destruct (colon =? 58)%N; [|discriminate].
    destruct (parse_value f r2) as [[v0 r3]|] eqn:Ev; [|discriminate].
    pose proof (members_tail_shorter f _ r3 v r H) as Htail.
    pose proof (proj1 (parse_value_shorter f) r2 v0 r3 Ev) as Hv0.
    rewrite (IHv r2 v0 r3 g Ev) by lia.
    pose proof (skip_ws_length r3) as Hr3.
    destruct (skip_ws r3) as [|d r4]; [discriminate|]. simpl in Hr3.
    destruct (d =? 44)%N; [apply IHm; [exact H|lia]|].
    exact H.
  - intros acc s v r g H Hg.
    pose proof (proj2 (proj2 (parse_value_shorter (S f))) acc s v r H) as Hshort.
    destruct g as [|g]; [lia|].
    cbn [parse_elements] in *.
    destruct (parse_value f s) as [[v0 r0]|] eqn:Ev; [|discriminate].
    pose proof (elements_tail_shorter f _ r0 v r H) as Htail.
    pose proof (proj1 (parse_value_shorter f) s v0 r0 Ev) as Hv0.
    rewrite (IHv s v0 r0 g Ev) by lia.
    pose proof (skip_ws_length r0) as Hr0.
    destruct (skip_ws r0) as [|d r1]; [discriminate|]. simpl in Hr0.
    destruct (d =? 44)%N; [apply IHe; [exact H|lia]|].
    exact H.
Qed.

(** [Json.parse] rejects a text only when no amount of fuel parses it. *)
Lemma parse_complete (fuel : nat) (text : jsstring) (v : JSValue) (r : jsstring) :
  parse_value fuel text = Some (v, r) -> skip_ws r = [] ->
  Json.parse text = Some v.
Proof.
  intros H Hr. unfold Json.parse.
  rewrite (proj1 (parse_value_fuel fuel) text v r (S (length text)) H) by lia.
  rewrite Hr. reflexivity.
Qed.

End JsonFacts.

Section MonadFacts.

Local Open Scope js_scope.

Lemma bind_assoc {A B C} (c : M A) (k : A -> M B) (h : B -> M C) (st : AppState) :
  bind (bind c k) h st = bind c (fun a => bind (k a) h) st.
Proof. unfold bind. destruct (c st) as [[a|e] st']; reflexivity. Qed.

Lemma bind_ext {A B} (c : M A) (k1 k2 : A -> M B) (st : AppState) :
  (forall a st', k1 a st' = k2 a st') -> bind c k1 st = bind c k2 st.
Proof. intros H. unfold bind. destruct (c st) as [[a|e] st']; auto. Qed.

Lemma bind_ret_tt (c : M unit) (st : AppState) :
  bind c (fun _ => ret tt) st = c st.
Proof. unfold bind, ret. destruct (c st) as [[[]|e] st']; reflexivity. Qed.

Lemma for_each_app {A} (f : A -> M unit) (l1 l2 : list A) (st : AppState) :
  for_each f (l1 ++ l2) st = (for_each f l1 ;; for_each f l2) st.
Proof.
  revert st; induction l1 as [|x l1 IH]; intros st; simpl.
  - reflexivity.
  - rewrite bind_assoc. apply bind_ext. intros _ st'. apply IH.
Qed.

End MonadFacts.

Section ListFacts.

Context {A : Type}.

Lemma last_app_nonnil (l1 l2 : list A) (d : A) :
  l2 <> [] -> last (l1 ++ l2) d = last l2 d.
Proof.
  intros H. induction l1 as [|x l1 IH]; simpl; [reflexivity|].
  destruct (l1 ++ l2) eqn:E; [|exact IH].
  apply app_eq_nil in E as [_ E]. contradiction.
Qed.

Lemma pop_nonnil (xs : list A) (d : A) :
  xs <> [] -> pop xs = (removelast xs, Some (last xs d)).
Proof.
  intros H. destruct (exists_last H) as (front & x & ->).
  unfold pop. rewrite rev_app_distr. simpl. rewrite rev_involutive.
  rewrite removelast_last, last_last. reflexivity.
Qed.

End ListFacts.

Section DecoderFacts.

Import TextDecoder.

Lemma decode_bytes_app (d : TextDecoder.t) (a b : list Byte.byte) :
  decode_bytes d (a ++ b) =
  (fst (decode_bytes (fst (decode_bytes d a)) b),
   snd (decode_bytes d a) ++ snd (decode_bytes (fst (decode_bytes d a)) b)).
Proof.
  revert d; induction a as [|x a IH]; intros d; simpl.
  - destruct (decode_bytes d b); reflexivity.
  - destruct (decode_byte d x) as [d1 o1]. rewrite IH.
    destruct (decode_bytes d1 a) as [d2 o2]. simpl.
    rewrite app_assoc. reflexivity.
Qed.

Lemma decode_stream (d : TextDecoder.t) (bs : list Byte.byte) :
  decode d bs true = decode_bytes d bs.
Proof. unfold decode. destruct (decode_bytes d bs); reflexivity. Qed.

Lemma decode_stream_app (d : TextDecoder.t) (a b : list Byte.byte) :
  decode d (a ++ b) true =
  (fst (decode (fst (decode d a true)) b true),
   snd (decode d a true) ++ snd (decode (fst (decode d a true)) b true)).
Proof. rewrite !decode_stream. apply decode_bytes_app. Qed.

Lemma decode_flush_app (d : TextDecoder.t) (a b : list Byte.byte) :
  snd (decode d (a ++ b) false) =
  snd (decode d a true) ++ snd (decode (fst (decode d a true)) b false).
Proof.
  rewrite decode_stream. unfold decode. rewrite decode_bytes_app.
  destruct (decode_bytes d a) as [d1 o1]. simpl.
  destruct (decode_bytes d1 b) as [d2 o2]. simpl.
  destruct (flush d2) as [d3 o3]. simpl. rewrite app_assoc. reflexivity.
Qed.

End DecoderFacts.

Section LoopFacts.

Local Open Scope js_scope.

Variable host : Host.
Variable assistantId : jsstring.


Lemma loop_body_chunk (chunk : list Byte.byte) (ls : LoopState) (st : AppState) :
  loop_body host assistantId {| done := false; value := Some chunk |} ls st =
  (for_each (handle_block host assistantId) (closed_frames ls chunk) ;; ret (advance ls chunk)) st.
Proof.
  unfold loop_body, closed_frames, advance. cbn [done value bytes_or_empty negb].
  destruct (TextDecoder.decode (decoder ls) chunk true) as [dec txt]. cbn [fst snd].
  rewrite (pop_nonnil (split [LF; LF] (buffer ls ++ txt)) []) by apply split_scan_nonnil.
  reflexivity.
Qed.

Lemma loop_body_final (v : option (list Byte.byte)) (ls : LoopState) (st : AppState) :
  (_ <- loop_body host assistantId {| done := true; value := v |} ls ;; ret tt) st =
  for_each (handle_block host assistantId)
    (removelast (split [LF; LF]
       (buffer ls ++ snd (TextDecoder.decode (decoder ls) (bytes_or_empty v) false)))) st.
Proof.
  unfold loop_body. cbn [done value negb].
  destruct (TextDecoder.decode (decoder ls) (bytes_or_empty v) false) as [dec txt].
  cbn [fst snd].
  rewrite (pop_nonnil (split [LF; LF] (buffer ls ++ txt)) []) by apply split_scan_nonnil.
  rewrite bind_assoc. unfold bind, ret.
  destruct (for_each _ _ st) as [[[]|e] st']; reflexivity.
Qed.

Lemma closed_frames_app (ls : LoopState) (a b : list Byte.byte) :
  closed_frames ls (a ++ b) = closed_frames ls a ++ closed_frames (advance ls a) b.
Proof.
  unfold closed_frames, advance. cbn [buffer decoder].
  rewrite decode_stream_app. cbn [snd]. rewrite app_assoc, split_app.
  rewrite removelast_app by apply split_scan_nonnil. reflexivity.
Qed.

Lemma advance_app (ls : LoopState) (a b : list Byte.byte) :
  advance ls (a ++ b) = advance (advance ls a) b.
Proof.
  unfold advance. cbn [buffer decoder].
  rewrite decode_stream_app. cbn [fst snd]. rewrite app_assoc, split_app.
  rewrite last_app_nonnil by apply split_scan_nonnil. reflexivity.
Qed.

(** The read loop over one or more chunks handles the frames closed by
    their concatenation and goes on from the state it leaves. *)
Lemma read_loop_chunks (rest : list (list Byte.byte)) :
  forall (chunk : list Byte.byte) (e : StreamEnd) (ls : LoopState) (st : AppState),
  read_loop host assistantId (chunk :: rest) e ls st =
  (for_each (handle_block host assistantId) (closed_frames ls (concat (chunk :: rest))) ;;
   read_loop host assistantId [] e (advance ls (concat (chunk :: rest)))) st.
Proof.
  induction rest as [|c2 rest IH]; intros chunk e ls st.
  - cbn [read_loop concat]. rewrite app_nil_r.
    unfold bind at 1. rewrite loop_body_chunk.
    unfold bind, ret. destruct (for_each _ _ st) as [[[]|err] st']; reflexivity.
  - change (read_loop host assistantId (chunk :: c2 :: rest) e ls st)
      with ((ls' <- loop_body host assistantId {| done := false; value := Some chunk |} ls ;;
             read_loop host assistantId (c2 :: rest) e ls') st).
    unfold bind at 1. rewrite loop_body_chunk.
    change (concat (chunk :: c2 :: rest)) with (chunk ++ concat (c2 :: rest)).
    rewrite closed_frames_app, advance_app.
    unfold bind at 2. rewrite for_each_app.
    unfold bind, ret.
    destruct (for_each (handle_block host assistantId) (closed_frames ls chunk) st) as [[[]|err] st'];
      [|reflexivity].
    rewrite IH. reflexivity.
Qed.

Lemma closed_frames_start_nil : closed_frames loop_start [] = [].
Proof. reflexivity. Qed.

Lemma advance_start_nil : advance loop_start [] = loop_start.
Proof. reflexivity. Qed.

Lemma read_loop_from_start (cs : list (list Byte.byte)) (e : StreamEnd) (st : AppState) :
  read_loop host assistantId cs e loop_start st =
  (for_each (handle_block host assistantId) (closed_frames loop_start (concat cs)) ;;
   read_loop host assistantId [] e (advance loop_start (concat cs))) st.
Proof.
  destruct cs as [|c rest]; [reflexivity|]. apply read_loop_chunks.
Qed.

(** The read loop over a whole body stream: its complete frames, each
    handled once and in order, then the end of the stream. *)
Lemma read_loop_frames (b : Body) (st : AppState) :
  read_loop host assistantId (chunks b) (stream_end b) loop_start st =
  (for_each (handle_block host assistantId) (frames_of b) ;; stream_outcome b) st.
Proof.
  rewrite read_loop_from_start. unfold frames_of, decoded_text, stream_outcome.
  destruct (stream_end b) as [v|err].
  - cbn [read_loop].
    rewrite decode_flush_app.
    assert (removelast (split [LF; LF]
              (snd (TextDecoder.decode TextDecoder.new (concat (chunks b)) true) ++
               snd (TextDecoder.decode
                      (fst (TextDecoder.decode TextDecoder.new (concat (chunks b)) true))
                      (bytes_or_empty v) false))) =
            closed_frames loop_start (concat (chunks b)) ++
            removelast (split [LF; LF]
              (buffer (advance loop_start (concat (chunks b))) ++
               snd (TextDecoder.decode (decoder (advance loop_start (concat (chunks b))))
                      (bytes_or_empty v) false)))) as ->.
    { unfold closed_frames, advance. cbn [buffer decoder loop_start app].
      rewrite split_app. rewrite removelast_app by apply split_scan_nonnil.
      reflexivity. }
    rewrite bind_ret_tt, for_each_app.
    apply bind_ext. intros _ st'. apply loop_body_final.
  - cbn [read_loop]. unfold closed_frames. reflexivity.
Qed.

End LoopFacts.

Section MessageFacts.

Variable assistantId : jsstring.

Lemma id_is_with_content (m : Message) (c : jsstring) :
  id_is assistantId (with_content m c) = id_is assistantId m.
Proof. reflexivity. Qed.

Lemma id_is_true (m : Message) :
  id_is assistantId m = true <-> id m = Some assistantId.
Proof.
  unfold id_is. destruct (id m) as [i|]; split; intros H; try discriminate.
  - apply jseqb_eq in H. congruence.
  - injection H as ->. apply jseqb_refl.
Qed.

Lemma update_assistant_compose (f g : Message -> jsstring) (l : list Message) :
  update_assistant assistantId g (update_assistant assistantId f l) =
  update_assistant assistantId (fun m => g (with_content m (f m))) l.
Proof.
  unfold update_assistant. rewrite map_map. apply map_ext. intros m.
  destruct (id_is assistantId m) eqn:E.
  - rewrite id_is_with_content, E. reflexivity.
  - rewrite E. reflexivity.
Qed.

Lemma update_assistant_app (f : Message -> jsstring) (l1 l2 : list Message) :
  update_assistant assistantId f (l1 ++ l2) =
  update_assistant assistantId f l1 ++ update_assistant assistantId f l2.
Proof. apply map_app. Qed.

Lemma update_assistant_ext (f g : Message -> jsstring) (l : list Message) :
  (forall m, f m = g m) ->
  update_assistant assistantId f l = update_assistant assistantId g l.
Proof.
  intros H. apply map_ext. intros m. rewrite H. reflexivity.
Qed.

Lemma update_assistant_same (l : list Message) :
  update_assistant assistantId content l = l.
Proof.
  unfold update_assistant. rewrite <- (map_id l) at 2. apply map_ext.
  intros [i r c]. destruct (id_is _ _); reflexivity.
Qed.

(** The two entries that [send] appends, after an update. *)
Lemma update_assistant_turn (f : Message -> jsstring) (msg : jsstring) :
  update_assistant assistantId f
    [ {| id := None; role := user; content := msg |};
      {| id := Some assistantId; role := assistant; content := [] |} ] =
  [ {| id := None; role := user; content := msg |};
    {| id := Some assistantId; role := assistant;
       content := f {| id := Some assistantId; role := assistant; content := [] |} |} ].
Proof.
  unfold update_assistant, id_is. simpl. rewrite jseqb_refl. reflexivity.
Qed.

Lemma with_messages_same (st : AppState) : with_messages st (messages st) = st.
Proof. destruct st; reflexivity. Qed.

Lemma with_messages_twice (st : AppState) (a b : list Message) :
  with_messages (with_messages st a) b = with_messages st b.
Proof. reflexivity. Qed.

End MessageFacts.

Section DispatchFacts.

Local Open Scope js_scope.

Variable host : Host.
Variable assistantId : jsstring.


Lemma parse_payload_normal (raw : jsstring) :
  exists v, parse_payload host raw = Normal v.
Proof.
  unfold parse_payload. destruct (JSON_parse host raw); eauto.
Qed.

Lemma parseSseBlock_normal (block : jsstring) :
  exists r, parseSseBlock host block = Normal r.
Proof.
  unfold parseSseBlock. destruct block as [|c block]; [eauto|].
  destruct (block_fields (c :: block)) as [ev data].
  destruct (join [LF] data) as [|d raw]; [eauto|].
  destruct (parse_payload_normal (d :: raw)) as [v ->]. eauto.
Qed.

(** What an event that is no [error] event does: one update of the
    entries of the turn, the same whatever the state. *)
Lemma dispatch_update (evt : SseEvent) :
  eqb (event evt) (lit "error") = false ->
  exists f, forall st,
    dispatch host assistantId evt st =
    (Normal tt, with_messages st (update_assistant assistantId f (messages st))).
Proof.
  intros Herr. unfold dispatch.
  destruct (eqb (event evt) (lit "tool_call")); [eexists; intros st; reflexivity|].
  destruct (eqb (event evt) (lit "token")); [eexists; intros st; reflexivity|].
  rewrite Herr. exists content. intros st.
  rewrite update_assistant_same, with_messages_same. reflexivity.
Qed.

Lemma handle_block_update (block : jsstring) :
  is_error_frame host block = false ->
  exists f, forall st,
    (handle_block host assistantId) block st =
    (Normal tt, with_messages st (update_assistant assistantId f (messages st))).
Proof.
  unfold is_error_frame, handle_block. intros H.
  destruct (parseSseBlock_normal block) as [[evt|] E]; rewrite E in *.
  - destruct (dispatch_update evt H) as [f Hf]. exists f. intros st.
    unfold bind, lift. apply Hf.
  - exists content. intros st. unfold bind, lift, ret.
    rewrite update_assistant_same, with_messages_same. reflexivity.
Qed.

Lemma for_each_update (blocks : list jsstring) :
  forallb (fun b => negb (is_error_frame host b)) blocks = true ->
  exists f, forall st,
    for_each (handle_block host assistantId) blocks st =
    (Normal tt, with_messages st (update_assistant assistantId f (messages st))).
Proof.
  induction blocks as [|b blocks IH]; intros H.
  - exists content. intros st. simpl. unfold ret.
    rewrite update_assistant_same, with_messages_same. reflexivity.
  - simpl in H. apply andb_true_iff in H as [Hb Hrest].
    apply negb_true_iff in Hb.
    destruct (handle_block_update b Hb) as [f Hf].
    destruct (IH Hrest) as [g Hg].
    exists (fun m => g (with_content m (f m))). intros st.
    simpl. unfold bind. rewrite Hf, Hg.
    unfold with_messages. cbn [text messages semantic loading].
    rewrite update_assistant_compose. reflexivity.
Qed.

(** An [error] event throws the error of its message, in any state. *)
Lemma handle_block_error (block : jsstring) (p : JSValue) (m : jsstring) (st : AppState) :
  parseSseBlock host block = Normal (Some {| event := lit "error"; payload := p |}) ->
  get_opt p "message" = JStr m ->
  (handle_block host assistantId) block st =
  (Throw {| message := match m with [] => lit "Stream error" | _ :: _ => m end |}, st).
Proof.
  intros Hp Hm. unfold handle_block, bind, lift. rewrite Hp.
  unfold dispatch. cbn [event payload]. rewrite Hm.
  destruct m; reflexivity.
Qed.

Lemma handle_block_token (block t : jsstring) (st : AppState) :
  token_text host block = Some t ->
  (handle_block host assistantId) block st =
  (Normal tt, with_messages st
     (update_assistant assistantId (fun m => content m ++ t) (messages st))).
Proof.
  unfold token_text, handle_block, bind, lift.
  destruct (parseSseBlock host block) as [[evt|]|]; try discriminate.
  destruct (eqb (event evt) (lit "token")) eqn:Etok; [|discriminate].
  destruct (get_opt (payload evt) "text") as [| | | |s| |] eqn:Etext; try discriminate.
  intros H; injection H as ->.
  unfold dispatch.
  assert (eqb (event evt) (lit "tool_call") = false) as ->.
  { apply jseqb_eq in Etok. rewrite Etok. reflexivity. }
  rewrite Etok, Etext. destruct t; reflexivity.
Qed.

Lemma for_each_tokens (blocks : list jsstring) (ts : list jsstring) :
  map (token_text host) blocks = map Some ts ->
  forall st,
    for_each (handle_block host assistantId) blocks st =
    (Normal tt, with_messages st
       (update_assistant assistantId (fun m => content m ++ concat ts) (messages st))).
Proof.
  revert ts; induction blocks as [|b blocks IH]; intros [|t ts] H st;
    try discriminate.
  - simpl. unfold ret.
    rewrite (update_assistant_ext assistantId _ content)
      by (intros m; apply app_nil_r).
    rewrite update_assistant_same, with_messages_same. reflexivity.
  - simpl in H. injection H as Ht Hts.
    simpl. unfold bind. rewrite (handle_block_token b t st Ht).
    rewrite (IH ts Hts). unfold with_messages. cbn [text messages semantic loading].
    rewrite update_assistant_compose. do 2 f_equal.
    apply update_assistant_ext. intros m. cbn [content with_content].
    rewrite app_assoc. reflexivity.
Qed.

End DispatchFacts.

Section SendFacts.

Local Open Scope js_scope.

Variable host : Host.

Lemma send_started (w : World) (st : AppState) :
  trim (text st) <> [] -> loading st = false ->
  send host w st =
  try_finally
    (try_catch (send_try host w (new_assistantId w)) (send_catch (new_assistantId w)))
    (setLoading false) (turn_start st (new_assistantId w)).
Proof.
  intros Htext Hload. unfold send. rewrite Hload.
  destruct (trim (text st)) as [|c msg] eqn:E; [congruence|].
  unfold turn_start. rewrite E. reflexivity.
Qed.

Lemma send_ext (w1 w2 : World) (st : AppState) :
  Date_now w1 = Date_now w2 ->
  (forall s, send_try host w1 (new_assistantId w1) s =
             send_try host w2 (new_assistantId w2) s) ->
  send host w1 st = send host w2 st.
Proof.
  intros Hnow Htry. unfold send.
  destruct (trim (text st)); [reflexivity|].
  destruct (loading st); [reflexivity|].
  unfold bind, try_finally, try_catch, setText, setLoading, setMessages.
  unfold new_assistantId in *. rewrite <- Hnow in *. rewrite Htry. reflexivity.
Qed.

(** A turn whose [try] block throws after updates of its own entries
    only: the catch handler overwrites them. *)
Lemma send_thrown (w : World) (st : AppState) (err : Error) (f : Message -> jsstring) :
  trim (text st) <> [] -> loading st = false ->
  send_try host w (new_assistantId w) (turn_start st (new_assistantId w)) =
  (Throw err,
   with_messages (turn_start st (new_assistantId w))
     (update_assistant (new_assistantId w) f
        (messages (turn_start st (new_assistantId w))))) ->
  send host w st =
  (Normal tt,
   turn_result st (new_assistantId w) (lit "Error: " ++ message err) (semantic st)).
Proof.
  intros Htext Hload Htry. rewrite send_started by assumption.
  unfold try_finally, try_catch. rewrite Htry.
  unfold send_catch, setMessages, setLoading, with_messages, turn_result.
  cbn [text messages semantic loading turn_start].
  rewrite update_assistant_compose, update_assistant_app, update_assistant_turn.
  reflexivity.
Qed.

Lemma send_try_stream (w : World) (r : Response) (b : Body) (aid : jsstring) (s : AppState) :
  chat_stream w = Resolved r -> ok r = true -> body r = Some b ->
  send_try host w aid s =
  ((for_each (handle_block host aid) (frames_of b) ;; stream_outcome b) ;;
   loadSemantic host w) s.
Proof.
  intros Hf Hok Hb. unfold send_try. rewrite Hf. cbn [fetch].
  unfold bind at 1. unfold lift at 1. rewrite Hok, Hb.
  unfold bind at 1 3.
  change {| buffer := []; decoder := TextDecoder.new |} with loop_start.
  rewrite read_loop_frames. reflexivity.
Qed.

Lemma send_try_stream_throw (w : World) (r : Response) (b : Body) (aid : jsstring)
  (s s' : AppState) (err : Error) :
  chat_stream w = Resolved r -> ok r = true -> body r = Some b ->
  (for_each (handle_block host aid) (frames_of b) ;; stream_outcome b) s = (Throw err, s') ->
  send_try host w aid s = (Throw err, s').
Proof.
  intros Hf Hok Hb H. rewrite (send_try_stream w r b aid s Hf Hok Hb).
  unfold bind at 1. rewrite H. reflexivity.
Qed.

Lemma send_try_failed (w : World) (r : Response) (aid : jsstring) (s : AppState) :
  chat_stream w = Resolved r -> (if ok r then body r else None) = None ->
  send_try host w aid s =
  (data <- lift (Response_json host r) ;;
   v <- lift (failure_text host data) ;;
   throw (new_Error host v)) s.
Proof.
  intros Hf H. unfold send_try. rewrite Hf. cbn [fetch].
  unfold bind at 1. unfold lift at 1. rewrite H. reflexivity.
Qed.

Lemma frames_of_concat (cs1 cs2 : list (list Byte.byte)) (e : StreamEnd) :
  concat cs1 = concat cs2 ->
  frames_of {| chunks := cs1; stream_end := e |} =
  frames_of {| chunks := cs2; stream_end := e |}.
Proof.
  intros H. unfold frames_of, decoded_text. cbn [chunks stream_end].
  rewrite H. reflexivity.
Qed.

Lemma send_try_rechunk (w : World) (cs1 cs2 : list (list Byte.byte)) (aid : jsstring)
  (s : AppState) :
  concat cs1 = concat cs2 ->
  send_try host (with_chunks w cs1) aid s = send_try host (with_chunks w cs2) aid s.
Proof.
  intros H. destruct (chat_stream w) as [err|r] eqn:Ef.
  - unfold send_try, with_chunks. cbn [chat_stream]. rewrite Ef. reflexivity.
  - destruct (body r) as [b|] eqn:Eb.
    + destruct (ok r) eqn:Eok.
      * set (r1 := {| status := status r;
                      body := Some {| chunks := cs1; stream_end := stream_end b |} |}).
        set (r2 := {| status := status r;
                      body := Some {| chunks := cs2; stream_end := stream_end b |} |}).
        rewrite (send_try_stream (with_chunks w cs1) r1
                   {| chunks := cs1; stream_end := stream_end b |} aid s);
          [|unfold with_chunks; cbn [chat_stream]; rewrite Ef, Eb; reflexivity
           |exact Eok|reflexivity].
        rewrite (send_try_stream (with_chunks w cs2) r2
                   {| chunks := cs2; stream_end := stream_end b |} aid s);
          [|unfold with_chunks; cbn [chat_stream]; rewrite Ef, Eb; reflexivity
           |exact Eok|reflexivity].
        rewrite (frames_of_concat cs1 cs2 (stream_end b) H). reflexivity.
      * rewrite (send_try_failed (with_chunks w cs1)
                   {| status := status r;
                      body := Some {| chunks := cs1; stream_end := stream_end b |} |} aid s);
          [|unfold with_chunks; cbn [chat_stream]; rewrite Ef, Eb; reflexivity
           |unfold ok in *; cbn [status]; rewrite Eok; reflexivity].
        rewrite (send_try_failed (with_chunks w cs2)
                   {| status := status r;
                      body := Some {| chunks := cs2; stream_end := stream_end b |} |} aid s);
          [|unfold with_chunks; cbn [chat_stream]; rewrite Ef, Eb; reflexivity
           |unfold ok in *; cbn [status]; rewrite Eok; reflexivity].
        unfold Response_json. cbn [body chunks stream_end]. rewrite H. reflexivity.
    + unfold send_try, with_chunks. cbn [chat_stream]. rewrite Ef, Eb. reflexivity.
Qed.

End SendFacts.

Section StringFacts.

Lemma startsWith_self_app (p s : jsstring) : startsWith p (p ++ s) = true.
Proof.
  induction p as [|x p IH]; simpl; [reflexivity|].
  rewrite N.eqb_refl. exact IH.
Qed.

Lemma includes_app (needle pre post : jsstring) :
  includes needle (pre ++ needle ++ post) = true.
Proof.
  induction pre as [|c pre IH].
  - simpl app. destruct (needle ++ post) eqn:E; simpl;
      rewrite <- E, startsWith_self_app; reflexivity.
  - simpl. rewrite IH. apply orb_true_r.
Qed.

Lemma includes_suffix (needle pre : jsstring) :
  includes needle (pre ++ needle) = true.
Proof.
  rewrite <- (app_nil_r needle) at 2. apply includes_app.
Qed.

End StringFacts.

Section EffectFacts.

Variable host : Host.
Variable assistantId : jsstring.

Lemma frame_effect_update (f : Message -> jsstring) (l : list Message) :
  frame_effect assistantId l (update_assistant assistantId f l).
Proof.
  unfold frame_effect, update_assistant. split; [apply length_map|].
  intros i m Hm. rewrite nth_error_map, Hm. cbn [option_map].
  eexists. split; [reflexivity|].
  destruct (id_is assistantId m) eqn:E.
  - repeat split. intros Hne. apply id_is_true in E. contradiction.
  - repeat split.
Qed.

Lemma frame_effect_same (l : list Message) : frame_effect assistantId l l.
Proof.
  rewrite <- (update_assistant_same assistantId l) at 2.
  apply frame_effect_update.
Qed.

Lemma loadSemantic_messages (w : World) (s : AppState) :
  messages (snd (loadSemantic host w s)) = messages s.
Proof.
  unfold loadSemantic, bind, lift, setSemantic.
  destruct (fetch (memories_semantic w)) as [r|e]; [|reflexivity].
  destruct (Response_json host r) as [data|e]; [|reflexivity].
  destruct (get host data "memories") as [v|e]; reflexivity.
Qed.

Lemma obj_get_absent (key : jsstring) (props : list (jsstring * JSValue)) :
  existsb (fun k => eqb k key) (map fst props) = false ->
  obj_get key props = JUndefined.
Proof.
  induction props as [|[k v] props IH]; simpl; [reflexivity|].
  intros H. apply orb_false_iff in H as [Hk Hrest].
  rewrite Hk. auto.
Qed.

Lemma no_text_field_get (p : JSValue) :
  no_text_field p = true -> get_opt p "text" = JUndefined.
Proof.
  destruct p; simpl; try reflexivity.
  intros H. apply negb_true_iff in H. apply obj_get_absent. exact H.
Qed.

Lemma block_fields_plain (lines : list jsstring) (ev : jsstring) (data : list jsstring) :
  forallb plain_line lines = true ->
  fold_left parse_line lines (ev, data) = (ev, data).
Proof.
  induction lines as [|line lines IH]; cbn [fold_left forallb]; [reflexivity|].
  intros H. apply andb_true_iff in H as [Hl Hrest].
  unfold plain_line in Hl. apply andb_true_iff in Hl as [He Hd].
  apply negb_true_iff in He, Hd. unfold parse_line at 2. rewrite He, Hd. auto.
Qed.

End EffectFacts.

(* ================================================================== *)
(** * The claims *)
(* ================================================================== *)


Lemma can_send_guard (st : AppState) :
  can_send st = true -> trim (text st) <> [] /\ loading st = false.
Proof.
  unfold can_send. destruct (trim (text st)); [discriminate|].
  intros H. apply negb_true_iff in H. split; [discriminate|exact H].
Qed.

(** C1, as amended.  When a read of the body stream is rejected after
    frames have been handled (none of them an [error] event), the turn
    ends normally and the assistant entry shows exactly ["Error: "]
    followed by the message of the failure: the catch handler replaces
    the text accumulated so far, it does not append to it. *)
Theorem read_failure_replaces_content
  (host : Host) (w : World) (st : AppState) (r : Response) (b : Body) (err : Error) :
  can_send st = true ->
  chat_stream w = Resolved r -> ok r = true -> body r = Some b ->
  stream_end b = ReadFailed err ->
  forallb (fun f => negb (is_error_frame host f)) (frames_of b) = true ->
  send host w st =
  (Normal tt,
   turn_result st (new_assistantId w) (lit "Error: " ++ message err) (semantic st)).
Proof.
  intros Hgo Hf Hok Hb Hend Hfr.
  destruct (can_send_guard st Hgo) as [Htext Hload].
  destruct (for_each_update host (new_assistantId w) (frames_of b) Hfr) as [f Hupd].
  apply (send_thrown host w st err f Htext Hload).
  apply (send_try_stream_throw host w r b _ _ _ err Hf Hok Hb).
  unfold bind. rewrite Hupd. unfold stream_outcome. rewrite Hend. reflexivity.
Qed.

Lemma read_failure_replaces_content_witness :
  send sample_host hello_then_failure sample_state =
  (Normal tt,
   turn_result sample_state (lit "a-17") (lit "Error: network error") JNull).
Proof.
  apply (read_failure_replaces_content sample_host hello_then_failure sample_state
           {| status := 200;
              body := Some {| chunks := [wire "event: token|data: {'text':'Hello'}||"];
                              stream_end := ReadFailed {| message := lit "network error" |} |} |}
           {| chunks := [wire "event: token|data: {'text':'Hello'}||"];
              stream_end := ReadFailed {| message := lit "network error" |} |}
           {| message := lit "network error" |});
    reflexivity.
Defined.

(** C1, as stated, fails: with [Hello] accumulated from a [token] frame,
    a rejected read leaves the assistant entry showing the error text
    only, in which [Hello] does not occur. *)
Lemma read_failure_discards_partial_output :
  shown (snd (for_each (handle_block sample_host (lit "a-17"))
                (frames_of {| chunks := [wire "event: token|data: {'text':'Hello'}||"];
                              stream_end := ReadFailed {| message := lit "network error" |} |})
                (turn_start sample_state (lit "a-17")))) = lit "Hello" /\
  shown (snd (send sample_host hello_then_failure sample_state)) =
    lit "Error: network error" /\
  includes (lit "Hello")
    (shown (snd (send sample_host hello_then_failure sample_state))) = false.
Proof. vm_compute. repeat split. Qed.

(** C2.  Cutting the bytes of the response body into chunks at other
    places, inside a character or inside a frame, changes nothing in
    the outcome of [send]: the completion and the whole component
    state, the content of the assistant entry included, are the same. *)
Theorem rechunking_invariance
  (host : Host) (w : World) (cs1 cs2 : list (list Byte.byte)) (st : AppState) :
  concat cs1 = concat cs2 ->
  send host (with_chunks w cs1) st = send host (with_chunks w cs2) st.
Proof.
  intros H. apply send_ext; [reflexivity|].
  intros s. apply send_try_rechunk. exact H.
Qed.

Lemma rechunking_invariance_witness :
  concat hello_chunked = concat [concat hello_chunked] /\
  send sample_host (with_chunks (sample_world 200 [] (Completed None)) hello_chunked)
    sample_state =
  send sample_host
    (with_chunks (sample_world 200 [] (Completed None)) [concat hello_chunked])
    sample_state.
Proof.
  split; [reflexivity|].
  apply (rechunking_invariance sample_host (sample_world 200 [] (Completed None))
           hello_chunked [concat hello_chunked] sample_state).
  reflexivity.
Defined.

(** C3.  In a turn without error (the stream completes, every complete
    frame is a [token] event carrying a string, and the refresh of the
    semantic memories succeeds) [send] completes normally and the
    assistant entry shows the texts of the events concatenated in the
    order of their frames. *)
Theorem token_texts_concatenated
  (host : Host) (w : World) (st : AppState) (r : Response) (b : Body)
  (v : option (list Byte.byte)) (ts : list jsstring) :
  can_send st = true ->
  chat_stream w = Resolved r -> ok r = true -> body r = Some b ->
  stream_end b = Completed v ->
  map (token_text host) (frames_of b) = map Some ts ->
  (forall s, fst (loadSemantic host w s) = Normal tt) ->
  fst (send host w st) = Normal tt /\
  messages (snd (send host w st)) =
  update_assistant (new_assistantId w) (fun m => content m ++ concat ts) (messages st) ++
  [ {| id := None; role := user; content := trim (text st) |};
    {| id := Some (new_assistantId w); role := assistant; content := concat ts |} ].
Proof.
  intros Hgo Hf Hok Hb Hend Htok Hsem.
  destruct (can_send_guard st Hgo) as [Htext Hload].
  rewrite send_started by assumption.
  unfold try_finally, try_catch.
  rewrite (send_try_stream host w r b _ _ Hf Hok Hb).
  unfold bind. rewrite (for_each_tokens host (new_assistantId w) _ ts Htok).
  unfold stream_outcome. rewrite Hend. unfold ret.
  match goal with |- context [loadSemantic host w ?s] =>
    pose proof (Hsem s) as Hc; pose proof (loadSemantic_messages host w s) as Hm;
    destruct (loadSemantic host w s) as [c s2] end.
  cbn [fst snd] in Hc, Hm. subst c. cbn [setLoading fst snd messages].
  split; [reflexivity|]. rewrite Hm.
  cbn [with_messages messages turn_start].
  rewrite update_assistant_app, update_assistant_turn. reflexivity.
Qed.

Lemma token_texts_concatenated_witness :
  fst (send sample_host
         (sample_world 200
            [wire "event: token|data: {'text':'He'}||event: token|data: {'text':'llo'}||"]
            (Completed None)) sample_state) = Normal tt /\
  messages (snd (send sample_host
         (sample_world 200
            [wire "event: token|data: {'text':'He'}||event: token|data: {'text':'llo'}||"]
            (Completed None)) sample_state)) =
  [ {| id := None; role := user; content := lit "first" |};
    {| id := Some (lit "a-5"); role := assistant; content := lit "reply" |};
    {| id := None; role := user; content := lit "hi" |};
    {| id := Some (lit "a-17"); role := assistant; content := lit "Hello" |} ].
Proof.
  apply (token_texts_concatenated sample_host
           (sample_world 200
              [wire "event: token|data: {'text':'He'}||event: token|data: {'text':'llo'}||"]
              (Completed None))
           sample_state
           {| status := 200;
              body := Some {| chunks :=
                  [wire "event: token|data: {'text':'He'}||event: token|data: {'text':'llo'}||"];
                  stream_end := Completed None |} |}
           {| chunks :=
                [wire "event: token|data: {'text':'He'}||event: token|data: {'text':'llo'}||"];
              stream_end := Completed None |}
           None [lit "He"; lit "llo"]);
    reflexivity.
Defined.


(** C4.  When a complete frame parses to an [error] event whose message
    is the string [m], and no earlier frame is an [error] event, the
    turn ends at that frame: the frames after it are never handled
    (whatever they are, the loop over the frames is the loop up to the
    error frame), [send] leaves the assistant entry showing ["Error: "]
    followed by [m] (by ["Stream error"] when [m] is empty), the
    semantic memories are not refreshed, and that text contains [m]. *)
Theorem error_event_is_terminal
  (host : Host) (w : World) (st : AppState) (r : Response) (b : Body)
  (pre post : list jsstring) (blk : jsstring) (p : JSValue) (m : jsstring) :
  can_send st = true ->
  chat_stream w = Resolved r -> ok r = true -> body r = Some b ->
  frames_of b = pre ++ blk :: post ->
  forallb (fun f => negb (is_error_frame host f)) pre = true ->
  parseSseBlock host blk = Normal (Some {| event := lit "error"; payload := p |}) ->
  get_opt p "message" = JStr m ->
  (forall (later : list jsstring) (s : AppState),
     for_each (handle_block host (new_assistantId w)) (pre ++ blk :: later) s =
     for_each (handle_block host (new_assistantId w)) (pre ++ [blk]) s) /\
  send host w st =
  (Normal tt,
   turn_result st (new_assistantId w)
     (lit "Error: " ++ ToString host (js_or host (JStr m) (JStr (lit "Stream error"))))
     (semantic st)) /\
  includes m
    (lit "Error: " ++ ToString host (js_or host (JStr m) (JStr (lit "Stream error")))) = true.
Proof.
  intros Hgo Hf Hok Hb Hfr Hpre Hblk Hmsg.
  destruct (can_send_guard st Hgo) as [Htext Hload].
  assert (Hthrow : forall later s,
            for_each (handle_block host (new_assistantId w)) (blk :: later) s =
            (Throw {| message := ToString host (js_or host (JStr m) (JStr (lit "Stream error"))) |}, s)).
  { intros later s. cbn [for_each]. unfold bind.
    rewrite (handle_block_error host _ blk p m s Hblk Hmsg). destruct m; reflexivity. }
  split; [|split].
  - intros later s. rewrite !for_each_app. apply bind_ext. intros _ s'.
    rewrite !Hthrow. reflexivity.
  - destruct (for_each_update host (new_assistantId w) pre Hpre) as [f Hupd].
    apply (send_thrown host w st
             {| message := ToString host (js_or host (JStr m) (JStr (lit "Stream error"))) |}
             f Htext Hload).
    apply (send_try_stream_throw host w r b _ _ _ _ Hf Hok Hb).
    unfold bind at 1. rewrite Hfr, for_each_app. unfold bind at 1.
    rewrite Hupd, Hthrow. reflexivity.
  - destruct m as [|c m]; [reflexivity|]. apply includes_suffix.
Qed.

Lemma error_event_is_terminal_witness :
  send sample_host (sample_world 200 boom_stream (Completed None)) sample_state =
  (Normal tt, turn_result sample_state (lit "a-17") (lit "Error: boom") JNull).
Proof.
  apply (error_event_is_terminal sample_host
           (sample_world 200 boom_stream (Completed None)) sample_state
           {| status := 200;
              body := Some {| chunks := boom_stream; stream_end := Completed None |} |}
           {| chunks := boom_stream; stream_end := Completed None |}
           [lit "event: token" ++ [LF] ++ litq "data: {'text':'partial'}"]
           [lit "event: token" ++ [LF] ++ litq "data: {'text':'late'}"]
           (lit "event: error" ++ [LF] ++ litq "data: {'message':'boom'}")
           (JObj [(lit "message", JStr (lit "boom"))])
           (lit "boom"));
    reflexivity.
Defined.

Lemma failure_text_value (host : Host) (data : JSValue) :
  nullish data = false ->
  failure_text host data = Normal (failure_value host data).
Proof.
  intros H. unfold failure_text, failure_value, js_or.
  assert (Hget : forall key, get host data key = Normal (get_opt data key))
    by (intros key; destruct data; try reflexivity; discriminate).
  rewrite !Hget.
  destruct (truthy host (get_opt data "detail")); [reflexivity|].
  destruct (truthy host (get_opt data "error")); reflexivity.
Qed.

(** C5, as amended.  For a response whose status is not successful and
    whose body parses to a value that is neither [null] nor
    [undefined], the [try] block reads no chunk and handles no frame:
    in any state it throws, with the state untouched, the error whose
    message is the body's [detail] when that is truthy, else its
    [error] when that is truthy, else the fixed text
    ["Request failed"], the same for every status code; [send] then
    leaves the assistant entry showing ["Error: "] followed by that
    message. *)
Theorem failed_status_surfaces_body_text
  (host : Host) (w : World) (st : AppState) (r : Response) (data : JSValue) :
  can_send st = true ->
  chat_stream w = Resolved r -> ok r = false ->
  Response_json host r = Normal data -> nullish data = false ->
  (forall (aid : jsstring) (s : AppState),
     send_try host w aid s = (Throw (new_Error host (failure_value host data)), s)) /\
  send host w st =
  (Normal tt,
   turn_result st (new_assistantId w)
     (lit "Error: " ++ ToString host (failure_value host data)) (semantic st)) /\
  (forall d, get_opt data "detail" = JStr d -> d <> [] ->
     ToString host (failure_value host data) = d) /\
  (forall e, truthy host (get_opt data "detail") = false ->
     get_opt data "error" = JStr e -> e <> [] ->
     ToString host (failure_value host data) = e) /\
  (truthy host (get_opt data "detail") = false ->
   truthy host (get_opt data "error") = false ->
   ToString host (failure_value host data) = lit "Request failed").
Proof.
  intros Hgo Hf Hok Hjson Hnn.
  destruct (can_send_guard st Hgo) as [Htext Hload].
  assert (Htry : forall aid s,
            send_try host w aid s = (Throw (new_Error host (failure_value host data)), s)).
  { intros aid s. rewrite (send_try_failed host w r aid s Hf) by (rewrite Hok; reflexivity).
    unfold bind, lift, throw. rewrite Hjson, (failure_text_value host data Hnn).
    reflexivity. }
  split; [exact Htry|]. split; [|repeat split].
  - apply (send_thrown host w st (new_Error host (failure_value host data)) content
             Htext Hload).
    rewrite Htry, update_assistant_same, with_messages_same. reflexivity.
  - intros d Hd Hne. unfold failure_value, js_or. rewrite Hd.
    destruct d; [congruence|reflexivity].
  - intros e Hd He Hne. unfold failure_value, js_or. rewrite Hd, He.
    destruct e; [congruence|reflexivity].
  - intros Hd He. unfold failure_value, js_or. rewrite Hd, He. reflexivity.
Qed.

Lemma failed_status_surfaces_body_text_witness :
  send sample_host (sample_world 500 [wire "{'detail':'bad'}"] (Completed None))
    sample_state =
  (Normal tt, turn_result sample_state (lit "a-17") (lit "Error: bad") JNull).
Proof.
  apply (failed_status_surfaces_body_text sample_host
           (sample_world 500 [wire "{'detail':'bad'}"] (Completed None)) sample_state
           {| status := 500;
              body := Some {| chunks := [wire "{'detail':'bad'}"];
                              stream_end := Completed None |} |}
           (JObj [(lit "detail", JStr (lit "bad"))]));
    reflexivity.
Defined.

(** C5, as stated, fails: without a [detail] or [error] field the text
    is ["Error: Request failed"] for status 500 and for status 404
    alike, and names neither status code. *)
Lemma generic_failure_text_ignores_status :
  shown (snd (send sample_host (sample_world 500 [wire "{}"] (Completed None))
                sample_state)) = lit "Error: Request failed" /\
  shown (snd (send sample_host (sample_world 404 [wire "{}"] (Completed None))
                sample_state)) = lit "Error: Request failed" /\
  includes (lit "500") (lit "Error: Request failed") = false /\
  includes (lit "404") (lit "Error: Request failed") = false.
Proof. vm_compute. repeat split. Qed.

(** C6.  [parseSseBlock] completes normally on every frame; and when
    the joined data lines of a frame are a non-empty text that
    [JSON.parse] rejects, the result is the event of the frame with the
    payload [{ text: raw }], [raw] being that text. *)
Theorem parseSseBlock_never_throws (host : Host) (block : jsstring) :
  (exists r, parseSseBlock host block = Normal r) /\
  (forall raw,
     raw = join [LF] (snd (block_fields block)) -> raw <> [] ->
     Json.parse raw = None ->
     parseSseBlock host block =
     Normal (Some {| event := fst (block_fields block);
                     payload := JObj [(lit "text", JStr raw)] |})).
Proof.
  split; [apply parseSseBlock_normal|].
  intros raw Hraw Hne Hparse. unfold parseSseBlock.
  destruct block as [|c block].
  - exfalso. apply Hne. rewrite Hraw. reflexivity.
  - destruct (block_fields (c :: block)) as [ev data]. cbn [fst snd] in *.
    rewrite <- Hraw. destruct raw as [|d raw]; [congruence|].
    unfold parse_payload, JSON_parse. rewrite Hparse. reflexivity.
Qed.

Lemma parseSseBlock_never_throws_witness :
  parseSseBlock sample_host (lit "data: not-json") =
  Normal (Some {| event := lit "message";
                  payload := JObj [(lit "text", JStr (lit "not-json"))] |}).
Proof.
  apply (proj2 (parseSseBlock_never_throws sample_host (lit "data: not-json"))
           (lit "not-json")).
  - reflexivity.
  - discriminate.
  - reflexivity.
Defined.

(** C7.  Each turn of the read loop on a chunk splits the buffer,
    extended by the decoded chunk, on the blank line; it handles every
    segment but the last, in order, and keeps the last one as the new
    buffer.  And when the stream completes, the read loop has handled
    exactly the complete frames of the stream: what follows the last
    blank line is neither parsed nor dispatched, and raises nothing. *)
Theorem frames_dispatched_tail_dropped (host : Host) (assistantId : jsstring) :
  (forall (chunk : list Byte.byte) (ls : LoopState) (st : AppState),
     loop_body host assistantId {| done := false; value := Some chunk |} ls st =
     (for_each (handle_block host assistantId)
        (removelast (split [LF; LF]
           (buffer ls ++ snd (TextDecoder.decode (decoder ls) chunk true)))) ;;
      ret {| buffer := last (split [LF; LF]
               (buffer ls ++ snd (TextDecoder.decode (decoder ls) chunk true))) [];
             decoder := fst (TextDecoder.decode (decoder ls) chunk true) |}) st) /\
  (forall (b : Body) (v : option (list Byte.byte)) (st : AppState),
     stream_end b = Completed v ->
     read_loop host assistantId (chunks b) (stream_end b) loop_start st =
     for_each (handle_block host assistantId)
       (removelast (split [LF; LF] (decoded_text b))) st).
Proof.
  split.
  - intros chunk ls st. apply loop_body_chunk.
  - intros b v st Hend. rewrite read_loop_frames.
    unfold stream_outcome. rewrite Hend. apply bind_ret_tt.
Qed.

Lemma frames_dispatched_tail_dropped_witness :
  read_loop sample_host (lit "a-17") torn_stream (Completed None) loop_start
    (turn_start sample_state (lit "a-17")) =
  (Normal tt,
   with_messages (turn_start sample_state (lit "a-17"))
     (messages sample_state ++
      [ {| id := None; role := user; content := lit "hi" |};
        {| id := Some (lit "a-17"); role := assistant; content := lit "hi" |} ])).
Proof.
  etransitivity.
  - apply (proj2 (frames_dispatched_tail_dropped sample_host (lit "a-17"))
             {| chunks := torn_stream; stream_end := Completed None |} None
             (turn_start sample_state (lit "a-17"))).
    reflexivity.
  - reflexivity.
Defined.

(** C8, as amended.  A frame none of whose lines sets the event name or
    data parses to [null] when it is the empty text, and otherwise to
    the event [message] with the payload [{}]; handled by the loop, it
    changes nothing in the component state either way. *)
Theorem plain_frame_is_ignored
  (host : Host) (assistantId : jsstring) (block : jsstring) (st : AppState) :
  forallb plain_line (split [LF] block) = true ->
  parseSseBlock host block =
  Normal (match block with
          | [] => None
          | _ :: _ => Some {| event := lit "message"; payload := JObj [] |}
          end) /\
  handle_block host assistantId block st = (Normal tt, st).
Proof.
  intros Hplain.
  assert (Hparse : parseSseBlock host block =
                   Normal (match block with
                           | [] => None
                           | _ :: _ => Some {| event := lit "message"; payload := JObj [] |}
                           end)).
  { unfold parseSseBlock. destruct block as [|c block]; [reflexivity|].
    unfold block_fields. rewrite (block_fields_plain _ _ _ Hplain). reflexivity. }
  split; [exact Hparse|].
  unfold handle_block, bind, lift. rewrite Hparse.
  destruct block; reflexivity.
Qed.

Lemma plain_frame_is_ignored_witness :
  parseSseBlock sample_host (lit ": keepalive") =
  Normal (Some {| event := lit "message"; payload := JObj [] |}) /\
  handle_block sample_host (lit "a-17") (lit ": keepalive") sample_state =
  (Normal tt, sample_state).
Proof.
  apply (plain_frame_is_ignored sample_host (lit "a-17") (lit ": keepalive") sample_state).
  reflexivity.
Defined.

(** C8, as stated, fails: a comment frame has no event-name line and no
    data line, yet [parseSseBlock] does not return [null] for it. *)
Lemma plain_frame_is_not_null :
  forallb plain_line (split [LF] (lit ": keepalive")) = true /\
  parseSseBlock sample_host (lit ": keepalive") <> Normal None.
Proof. split; [reflexivity|]. vm_compute. discriminate. Qed.

(** C9.  The update made for an event, and the update made by the catch
    handler, keep the length and the order of the message list, keep
    the [id] and the [role] of every entry, and leave every entry whose
    [id] is not the assistant id of the turn as it was. *)
Theorem updates_touch_only_the_turn (host : Host) (assistantId : jsstring) :
  (forall (evt : SseEvent) (st : AppState),
     frame_effect assistantId (messages st)
       (messages (snd (dispatch host assistantId evt st)))) /\
  (forall (err : Error) (st : AppState),
     frame_effect assistantId (messages st)
       (messages (snd (send_catch assistantId err st)))).
Proof.
  split.
  - intros evt st. unfold dispatch.
    destruct (eqb (event evt) (lit "tool_call")); [apply frame_effect_update|].
    destruct (eqb (event evt) (lit "token")); [apply frame_effect_update|].
    destruct (eqb (event evt) (lit "error")); apply frame_effect_same.
  - intros err st. apply frame_effect_update.
Qed.

(** C10.  A [token] event whose payload is missing, is not an object, or
    is an object without a [text] property is dispatched without a
    throw and leaves the component state, the content of the assistant
    entry included, as it was. *)
Theorem token_without_text_is_noop
  (host : Host) (assistantId : jsstring) (evt : SseEvent) (st : AppState) :
  event evt = lit "token" ->
  no_text_field (payload evt) = true ->
  dispatch host assistantId evt st = (Normal tt, st).
Proof.
  intros Hev Hno. unfold dispatch. rewrite Hev.
  change (eqb (lit "token") (lit "tool_call")) with false.
  change (eqb (lit "token") (lit "token")) with true. cbv iota.
  rewrite (no_text_field_get _ Hno).
  unfold js_or, setMessages. cbn [truthy ToString].
  rewrite (update_assistant_ext assistantId _ content) by (intros m; apply app_nil_r).
  rewrite update_assistant_same. destruct st; reflexivity.
Qed.

Lemma token_without_text_is_noop_witness :
  dispatch sample_host (lit "a-5")
    {| event := lit "token"; payload := JObj [(lit "delta", JStr (lit "x"))] |}
    sample_state = (Normal tt, sample_state) /\
  dispatch sample_host (lit "a-5") {| event := lit "token"; payload := JNull |}
    sample_state = (Normal tt, sample_state) /\
  dispatch sample_host (lit "a-5") {| event := lit "token"; payload := JNum (lit "7") |}
    sample_state = (Normal tt, sample_state).
Proof.
  split; [|split];
    apply (token_without_text_is_noop sample_host (lit "a-5")); reflexivity.
Defined.

(* ================================================================== *)
(** * Further properties of the consumer *)
(* ================================================================== *)

Section SplitJoinFacts.

Variable sep : jsstring.
Hypothesis sep_nonempty : sep <> [].

Lemma startsWith_skipn (p s : jsstring) :
  startsWith p s = true -> s = p ++ skipn (length p) s.
Proof.
  revert s; induction p as [|x p IH]; intros [|y s]; simpl; intros H;
    try reflexivity; try discriminate.
  apply andb_true_iff in H as [Hx Hp]. apply N.eqb_eq in Hx. subst y.
  f_equal. apply IH. exact Hp.
Qed.

Lemma join_cons (p : jsstring) (parts : list jsstring) :
  parts <> [] -> join sep (p :: parts) = p ++ sep ++ join sep parts.
Proof. destruct parts; [congruence|reflexivity]. Qed.

Lemma join_cons_head (c : N) (parts : list jsstring) :
  parts <> [] -> join sep (cons_head c parts) = c :: join sep parts.
Proof.
  destruct parts as [|p [|q parts]]; [congruence| |]; reflexivity.
Qed.

(** Joining the segments of a scan gives back the text scanned. *)
Lemma join_split_scan (s : jsstring) (k : nat) :
  (k <= length s)%nat -> join sep (split_scan sep k s) = skipn k s.
Proof.
  revert k; induction s as [|c s IH]; intros k Hk.
  - simpl in Hk. assert (k = 0)%nat as -> by lia. reflexivity.
  - destruct k as [|k].
    + cbn [split_scan skipn].
      destruct (startsWith sep (c :: s)) eqn:E.
      * pose proof (startsWith_length _ _ E) as Hlen. simpl in Hlen.
        rewrite join_cons by apply split_scan_nonnil.
        rewrite IH by (destruct sep; [congruence|simpl in *; lia]).
        etransitivity; [|symmetry; apply (startsWith_skipn _ _ E)].
        destruct sep as [|x sep']; [congruence|].
        cbn [length skipn app]. rewrite ?Nat.sub_0_r. simpl. rewrite ?Nat.sub_0_r. reflexivity.
      * rewrite join_cons_head by apply split_scan_nonnil.
        rewrite IH by lia. reflexivity.
    + cbn [split_scan skipn]. apply IH. simpl in Hk. lia.
Qed.

Lemma join_split (s : jsstring) : join sep (split sep s) = s.
Proof. unfold split. rewrite join_split_scan by lia. reflexivity. Qed.

(** The first segment of a scan is a prefix of the text. *)
Lemma split_scan_head_prefix (s seg : jsstring) (segs : list jsstring) :
  split_scan sep 0 s = seg :: segs -> exists t, s = seg ++ t.
Proof.
  revert seg segs; induction s as [|c s IH]; intros seg segs; cbn [split_scan].
  - intros H; injection H as <- _. exists []. reflexivity.
  - destruct (startsWith sep (c :: s)).
    + intros H; injection H as <- _. exists (c :: s). reflexivity.
    + destruct (split_scan sep 0 s) as [|seg1 X] eqn:E.
      * exfalso. exact (split_scan_nonnil _ _ _ E).
      * cbn [cons_head]. intros H; injection H as <- _.
        destruct (IH seg1 X eq_refl) as [t ->]. exists t. reflexivity.
Qed.

(** No segment of a scan contains the separator. *)
Lemma split_scan_free (s : jsstring) (k : nat) :
  Forall (fun seg => includes sep seg = false) (split_scan sep k s).
Proof.
  revert k; induction s as [|c s IH]; intros k.
  - cbn [split_scan]. constructor; [|constructor].
    destruct sep; [congruence|reflexivity].
  - destruct k as [|k]; cbn [split_scan]; [|apply IH].
    destruct (startsWith sep (c :: s)) eqn:E.
    + constructor; [|apply IH]. destruct sep; [congruence|reflexivity].
    + specialize (IH 0%nat).
      destruct (split_scan sep 0 s) as [|seg1 X] eqn:EX.
      * exfalso. exact (split_scan_nonnil _ _ _ EX).
      * cbn [cons_head]. inversion IH as [|? ? Hseg HX]; subst.
        constructor; [|exact HX].
        cbn [includes]. rewrite Hseg, orb_false_r.
        destruct (startsWith sep (c :: seg1)) eqn:E1; [|reflexivity].
        destruct (split_scan_head_prefix _ _ _ EX) as [t ->].
        apply (startsWith_app _ _ t) in E1. simpl app in E1. congruence.
Qed.

End SplitJoinFacts.

Section LineFacts.

Variable c : N.

Lemma startsWith_single (x : N) (s : jsstring) :
  startsWith [c] (x :: s) = N.eqb c x.
Proof. simpl. apply andb_true_r. Qed.

Lemma split_free (s : jsstring) :
  free_of c s = true -> split [c] s = [s].
Proof.
  unfold split. induction s as [|x s IH]; cbn [split_scan free_of forallb];
    [reflexivity|].
  intros H. apply andb_true_iff in H as [Hx Hs]. apply negb_true_iff in Hx.
  rewrite startsWith_single, Hx. unfold free_of in IH. rewrite (IH Hs). reflexivity.
Qed.

Lemma split_free_app (seg rest : jsstring) :
  free_of c seg = true ->
  split [c] (seg ++ c :: rest) = seg :: split [c] rest.
Proof.
  unfold split. induction seg as [|x seg IH]; intros H.
  - cbn [app split_scan]. rewrite startsWith_single, N.eqb_refl. reflexivity.
  - cbn [free_of forallb] in H. apply andb_true_iff in H as [Hx Hs].
    apply negb_true_iff in Hx.
    cbn [app split_scan]. rewrite startsWith_single, Hx.
    unfold free_of in IH. rewrite (IH Hs). reflexivity.
Qed.

(** Splitting on one code unit undoes joining with it, for parts that
    do not contain it. *)
Lemma split_join (parts : list jsstring) :
  parts <> [] -> forallb (free_of c) parts = true ->
  split [c] (join [c] parts) = parts.
Proof.
  induction parts as [|p parts IH]; intros Hne Hfree; [congruence|].
  cbn [forallb] in Hfree. apply andb_true_iff in Hfree as [Hp Hparts].
  destruct parts as [|q parts].
  - cbn [join]. apply split_free. exact Hp.
  - change (join [c] (p :: q :: parts)) with (p ++ c :: join [c] (q :: parts)).
    rewrite split_free_app by exact Hp.
    rewrite IH by (try discriminate; exact Hparts). reflexivity.
Qed.

End LineFacts.

Section ParserFacts.

Lemma last_cons_default {A : Type} (x d : A) (l : list A) :
  last (x :: l) d = last l x.
Proof.
  revert x d; induction l as [|y l IH]; intros x d; [reflexivity|].
  change (last (x :: y :: l) d) with (last (y :: l) d).
  rewrite (IH y d), (IH y x). reflexivity.
Qed.

Lemma fold_parse_line (lines : list jsstring) (ev : jsstring) (data : list jsstring) :
  fold_left parse_line lines (ev, data) =
  (last (map (fun l => trim (slice 6 l)) (filter (startsWith (lit "event:")) lines)) ev,
   data ++ map (fun l => trim (slice 5 l)) (filter (startsWith (lit "data:")) lines)).
Proof.
  revert ev data; induction lines as [|line lines IH]; intros ev data.
  - cbn [fold_left filter map last]. rewrite app_nil_r. reflexivity.
  - cbn [fold_left filter]. unfold parse_line at 2.
    destruct (startsWith (lit "event:") line);
      destruct (startsWith (lit "data:") line);
      rewrite IH; cbn [map]; rewrite ?last_cons_default, <- ?app_assoc; reflexivity.
Qed.

(** X12.  The loop over the lines of a frame, read as a whole: the
    event name is the trimmed rest of the last line that starts with
    [event:] ([message] when there is none), the data are the trimmed
    rests of the lines that start with [data:], in order; every other
    line is ignored. *)
Theorem fields_of_lines (lines : list jsstring) :
  lines <> [] -> forallb (free_of LF) lines = true ->
  block_fields (join [LF] lines) =
  (last (map (fun l => trim (slice 6 l)) (filter (startsWith (lit "event:")) lines))
     (lit "message"),
   map (fun l => trim (slice 5 l)) (filter (startsWith (lit "data:")) lines)).
Proof.
  intros Hne Hfree. unfold block_fields.
  rewrite (split_join LF lines Hne Hfree). apply fold_parse_line.
Qed.

Lemma fields_of_lines_witness :
  block_fields (lit "event: first" ++ [LF] ++ lit ": comment" ++ [LF] ++ lit "data: a"
                  ++ [LF] ++ lit "event:  second " ++ [LF] ++ lit "data:b") =
  (lit "second", [lit "a"; lit "b"]).
Proof.
  apply (fields_of_lines
           [lit "event: first"; lit ": comment"; lit "data: a";
            lit "event:  second "; lit "data:b"]).
  - discriminate.
  - reflexivity.
Defined.

Lemma free_of_app (c : N) (a b : jsstring) :
  free_of c (a ++ b) = free_of c a && free_of c b.
Proof. apply forallb_app. Qed.

Lemma filter_event_data_lines (ds : list jsstring) :
  filter (startsWith (lit "event:")) (map (fun d => lit "data:" ++ d) ds) = [].
Proof. induction ds as [|d ds IH]; [reflexivity|exact IH]. Qed.

Lemma filter_data_data_lines (ds : list jsstring) :
  filter (startsWith (lit "data:")) (map (fun d => lit "data:" ++ d) ds) =
  map (fun d => lit "data:" ++ d) ds.
Proof.
  induction ds as [|d ds IH]; [reflexivity|].
  cbn [map filter]. rewrite startsWith_self_app, IH. reflexivity.
Qed.

Lemma free_of_data_lines (ds : list jsstring) :
  forallb (free_of LF) ds = true ->
  forallb (free_of LF) (map (fun d => lit "data:" ++ d) ds) = true.
Proof.
  induction ds as [|d ds IH]; [reflexivity|].
  cbn [map forallb]. intros H. apply andb_true_iff in H as [Hd Hds].
  rewrite free_of_app, Hd, (IH Hds). reflexivity.
Qed.

(** X13.  A frame written as the wire format prescribes, an [event:]
    line followed by [data:] lines, parses to the trimmed event name
    and to the payload read from the trimmed data joined by line feeds:
    [{}] when that text is empty, the parsed JSON value when it is
    valid JSON, and [{ text: raw }] otherwise. *)
Theorem wire_frame_parsed (host : Host) (e : jsstring) (ds : list jsstring) :
  free_of LF e = true -> forallb (free_of LF) ds = true ->
  parseSseBlock host
    (join [LF] ((lit "event:" ++ e) :: map (fun d => lit "data:" ++ d) ds)) =
  Normal (Some
    {| event := trim e;
       payload :=
         match join [LF] (map trim ds) with
         | [] => JObj []
         | c :: raw =>
             match Json.parse (c :: raw) with
             | Some v => v
             | None => JObj [(lit "text", JStr (c :: raw))]
             end
         end |}).
Proof.
  intros He Hds.
  assert (Hfields :
    block_fields (join [LF] ((lit "event:" ++ e) :: map (fun d => lit "data:" ++ d) ds)) =
    (trim e, map trim ds)).
  { rewrite fields_of_lines.
    - cbn [filter]. rewrite startsWith_self_app.
      change (startsWith (lit "data:") (lit "event:" ++ e)) with false. cbv iota.
      rewrite filter_event_data_lines, filter_data_data_lines.
      cbn [map last]. rewrite map_map. reflexivity.
    - discriminate.
    - cbn [forallb]. rewrite free_of_app, He, (free_of_data_lines ds Hds). reflexivity. }
  unfold parseSseBlock.
  destruct (join [LF] ((lit "event:" ++ e) :: map (fun d => lit "data:" ++ d) ds))
    as [|b0 block] eqn:Eb.
  - exfalso. destruct (map (fun d => lit "data:" ++ d) ds); discriminate Eb.
  - rewrite Hfields.
    destruct (join [LF] (map trim ds)) as [|c raw]; [reflexivity|].
    unfold parse_payload, JSON_parse. destruct (Json.parse (c :: raw)); reflexivity.
Qed.

Lemma wire_frame_parsed_witness :
  parseSseBlock sample_host
    (lit "event: token" ++ [LF] ++ litq "data: {'text':'hi'}") =
  Normal (Some {| event := lit "token";
                  payload := JObj [(lit "text", JStr (lit "hi"))] |}).
Proof.
  apply (wire_frame_parsed sample_host (lit " token") [litq " {'text':'hi'}"]);
    reflexivity.
Defined.

End ParserFacts.

Section BufferFacts.

Variable host : Host.
Variable assistantId : jsstring.

Lemma loop_body_buffer (read : ReadResult) (ls ls' : LoopState) (st st' : AppState) :
  loop_body host assistantId read ls st = (Normal ls', st') ->
  buffer ls' =
  last (split [LF; LF]
          (buffer ls ++ snd (TextDecoder.decode (decoder ls)
                               (bytes_or_empty (value read)) (negb (done read))))) [].
Proof.
  unfold loop_body.
  destruct (TextDecoder.decode (decoder ls) (bytes_or_empty (value read))
              (negb (done read))) as [dec txt]. cbn [snd].
  rewrite (pop_nonnil (split [LF; LF] (buffer ls ++ txt)) []) by apply split_scan_nonnil.
  unfold bind, ret.
  destruct (for_each _ _ st) as [[[]|e] s1]; [|discriminate].
  intros H. injection H as <- _. reflexivity.
Qed.

(** X10.  A turn of the read loop loses no text: the frames it hands
    to the parser and the buffer it keeps, joined again by blank lines,
    are the old buffer followed by the text decoded from the chunk. *)
Theorem buffer_keeps_open_text
  (read : ReadResult) (ls ls' : LoopState) (st st' : AppState) :
  loop_body host assistantId read ls st = (Normal ls', st') ->
  join [LF; LF]
    (removelast (split [LF; LF]
       (buffer ls ++ snd (TextDecoder.decode (decoder ls)
                            (bytes_or_empty (value read)) (negb (done read)))))
     ++ [buffer ls']) =
  buffer ls ++ snd (TextDecoder.decode (decoder ls)
                      (bytes_or_empty (value read)) (negb (done read))).
Proof.
  intros H. rewrite (loop_body_buffer read ls ls' st st' H).
  rewrite <- app_removelast_last by apply split_scan_nonnil.
  apply join_split. discriminate.
Qed.

(** X11.  No frame handed to the parser contains a blank line, and
    neither does the buffer kept for the next read. *)
Theorem frames_and_buffer_delimiter_free
  (read : ReadResult) (ls ls' : LoopState) (st st' : AppState) :
  loop_body host assistantId read ls st = (Normal ls', st') ->
  Forall (fun frame => includes [LF; LF] frame = false)
    (removelast (split [LF; LF]
       (buffer ls ++ snd (TextDecoder.decode (decoder ls)
                            (bytes_or_empty (value read)) (negb (done read)))))) /\
  includes [LF; LF] (buffer ls') = false.
Proof.
  intros H. rewrite (loop_body_buffer read ls ls' st st' H).
  set (T := buffer ls ++ _).
  assert (Hall : Forall (fun seg => includes [LF; LF] seg = false) (split [LF; LF] T))
    by (apply split_scan_free; discriminate).
  unfold split in *.
  rewrite (app_removelast_last [] (split_scan_nonnil [LF; LF] 0 T)) in Hall.
  apply Forall_app in Hall as [Hfront Hlast].
  split; [exact Hfront|]. inversion Hlast; assumption.
Qed.

End BufferFacts.

Lemma buffer_keeps_open_text_witness :
  join [LF; LF]
    ([lit "event: token" ++ [LF] ++ litq "data: {'text':'hi'}"] ++
     [lit "event: tok"]) =
  lit "event: token" ++ [LF] ++ litq "data: {'text':'hi'}" ++ [LF; LF] ++ lit "event: tok".
Proof.
  exact (buffer_keeps_open_text sample_host (lit "a-17")
           {| done := false;
              value := Some (wire "event: token|data: {'text':'hi'}||event: tok") |}
           loop_start
           {| buffer := lit "event: tok";
              decoder := {| TextDecoder.utf8 := TextDecoder.utf8_new;
                            TextDecoder.BOM_seen := true |} |}
           (turn_start sample_state (lit "a-17"))
           (with_messages (turn_start sample_state (lit "a-17"))
              (messages sample_state ++
               [ {| id := None; role := user; content := lit "hi" |};
                 {| id := Some (lit "a-17"); role := assistant; content := lit "hi" |} ]))
           eq_refl).
Defined.


Lemma frames_and_buffer_delimiter_free_witness :
  Forall (fun frame => includes [LF; LF] frame = false)
    [lit "event: token" ++ [LF] ++ litq "data: {'text':'hi'}"] /\
  includes [LF; LF] (lit "event: tok") = false.
Proof.
  exact (frames_and_buffer_delimiter_free sample_host (lit "a-17")
           {| done := false;
              value := Some (wire "event: token|data: {'text':'hi'}||event: tok") |}
           loop_start
           {| buffer := lit "event: tok";
              decoder := {| TextDecoder.utf8 := TextDecoder.utf8_new;
                            TextDecoder.BOM_seen := true |} |}
           (turn_start sample_state (lit "a-17"))
           (with_messages (turn_start sample_state (lit "a-17"))
              (messages sample_state ++
               [ {| id := None; role := user; content := lit "hi" |};
                 {| id := Some (lit "a-17"); role := assistant; content := lit "hi" |} ]))
           eq_refl).
Defined.

Section TurnFacts.

Local Open Scope js_scope.

Variable host : Host.

Lemma loadSemantic_throw (w : World) (s : AppState) (e : Error) :
  fst (loadSemantic host w s) = Throw e -> snd (loadSemantic host w s) = s.
Proof.
  unfold loadSemantic, bind, lift, setSemantic.
  destruct (fetch (memories_semantic w)) as [r|e1]; [|reflexivity].
  destruct (Response_json host r) as [data|e1]; [|reflexivity].
  destruct (get host data "memories") as [v|e1]; [discriminate|reflexivity].
Qed.

Lemma handle_block_delta (aid block : jsstring) (st : AppState) :
  is_error_frame host block = false ->
  handle_block host aid block st =
  (Normal tt,
   with_messages st
     (update_assistant aid (fun m => content m ++ frame_delta host block) (messages st))).
Proof.
  unfold is_error_frame, frame_delta, handle_block, bind, lift. intros Herr.
  assert (Hsame : (Normal tt, st) =
                  (Normal tt, with_messages st
                     (update_assistant aid (fun m => content m ++ []) (messages st)))).
  { rewrite (update_assistant_ext aid _ content) by (intros m; apply app_nil_r).
    rewrite update_assistant_same, with_messages_same. reflexivity. }
  destruct (parseSseBlock_normal host block) as [[evt|] E]; rewrite E in *;
    [|exact Hsame].
  unfold dispatch.
  destruct (eqb (event evt) (lit "tool_call")); [reflexivity|].
  destruct (eqb (event evt) (lit "token")); [reflexivity|].
  rewrite Herr. exact Hsame.
Qed.

Lemma for_each_deltas (aid : jsstring) (blocks : list jsstring) :
  forallb (fun f => negb (is_error_frame host f)) blocks = true ->
  forall st,
    for_each (handle_block host aid) blocks st =
    (Normal tt,
     with_messages st
       (update_assistant aid
          (fun m => content m ++ concat (map (frame_delta host) blocks)) (messages st))).
Proof.
  induction blocks as [|b blocks IH]; intros H st.
  - cbn [for_each map concat]. unfold ret.
    rewrite (update_assistant_ext aid _ content) by (intros m; apply app_nil_r).
    rewrite update_assistant_same, with_messages_same. reflexivity.
  - cbn [forallb] in H. apply andb_true_iff in H as [Hb Hrest].
    apply negb_true_iff in Hb.
    cbn [for_each map concat]. unfold bind.
    rewrite (handle_block_delta aid b st Hb), (IH Hrest).
    unfold with_messages. cbn [text messages semantic loading].
    rewrite update_assistant_compose. do 2 f_equal.
    apply update_assistant_ext. intros m. cbn [content with_content].
    rewrite app_assoc. reflexivity.
Qed.

(** Whatever a frame is, handling it ends the same way in every state
    and changes nothing but the content of the entries of the turn. *)
Lemma handle_block_effect (aid block : jsstring) :
  exists (c : Completion unit) (f : Message -> jsstring),
    forall st,
      handle_block host aid block st =
      (c, with_messages st (update_assistant aid f (messages st))).
Proof.
  destruct (is_error_frame host block) eqn:Herr.
  - unfold is_error_frame in Herr. unfold handle_block, bind, lift.
    destruct (parseSseBlock host block) as [[evt|]|]; try discriminate.
    exists (Throw (new_Error host
              (js_or host (get_opt (payload evt) "message") (JStr (lit "Stream error"))))),
           content.
    intros st. unfold dispatch.
    assert (eqb (event evt) (lit "tool_call") = false) as ->
      by (apply jseqb_eq in Herr; rewrite Herr; reflexivity).
    assert (eqb (event evt) (lit "token") = false) as ->
      by (apply jseqb_eq in Herr; rewrite Herr; reflexivity).
    rewrite Herr, update_assistant_same, with_messages_same. reflexivity.
  - destruct (handle_block_update host aid block Herr) as [f Hf].
    exists (Normal tt), f. exact Hf.
Qed.

Lemma for_each_effect (aid : jsstring) (blocks : list jsstring) :
  exists (c : Completion unit) (f : Message -> jsstring),
    forall st,
      for_each (handle_block host aid) blocks st =
      (c, with_messages st (update_assistant aid f (messages st))).
Proof.
  induction blocks as [|b blocks (c2 & g & Hg)].
  - exists (Normal tt), content. intros st. cbn [for_each]. unfold ret.
    rewrite update_assistant_same, with_messages_same. reflexivity.
  - destruct (handle_block_effect aid b) as (c1 & f & Hf).
    destruct c1 as [[]|e].
    + exists c2, (fun m => g (with_content m (f m))). intros st.
      cbn [for_each]. unfold bind. rewrite Hf, Hg.
      unfold with_messages. cbn [text messages semantic loading].
      rewrite update_assistant_compose. reflexivity.
    + exists (Throw e), f. intros st. cbn [for_each]. unfold bind.
      rewrite Hf. reflexivity.
Qed.

(** The [try] block changes the message list only by rewriting the
    content of the entries of the turn. *)
Lemma send_try_messages (w : World) (aid : jsstring) (s : AppState) :
  exists f, messages (snd (send_try host w aid s)) = update_assistant aid f (messages s).
Proof.
  destruct (chat_stream w) as [err|r] eqn:Ef.
  - exists content. unfold send_try. rewrite Ef. cbn.
    rewrite update_assistant_same. reflexivity.
  - destruct (if ok r then body r else None) as [b|] eqn:Eb.
    + assert (Hok : ok r = true) by (destruct (ok r); [reflexivity|discriminate]).
      rewrite Hok in Eb.
      rewrite (send_try_stream host w r b aid s Ef Hok Eb).
      destruct (for_each_effect aid (frames_of b)) as (c & f & Hf).
      exists f. unfold bind. rewrite Hf.
      destruct c as [[]|e]; [|reflexivity].
      unfold stream_outcome, ret, throw.
      destruct (stream_end b); [|reflexivity].
      match goal with |- context [loadSemantic host w ?s0] =>
        pose proof (loadSemantic_messages host w s0) as Hm;
        destruct (loadSemantic host w s0) as [[[]|e] s1] end;
        cbn [snd] in *; rewrite Hm; reflexivity.
    + exists content. rewrite (send_try_failed host w r aid s Ef Eb).
      unfold bind, lift, throw.
      destruct (Response_json host r) as [data|e]; [|cbn; rewrite update_assistant_same; reflexivity].
      destruct (failure_text host data) as [v|e];
        cbn; rewrite update_assistant_same; reflexivity.
Qed.

End TurnFacts.

Section OutcomeFacts.

Local Open Scope js_scope.

Variable host : Host.

Lemma loadSemantic_effect (w : World) (s : AppState) :
  exists sem, snd (loadSemantic host w s) = with_semantic s sem.
Proof.
  unfold loadSemantic, bind, lift, setSemantic, with_semantic.
  destruct (fetch (memories_semantic w)) as [r|e];
    [|exists (semantic s); destruct s; reflexivity].
  destruct (Response_json host r) as [data|e];
    [|exists (semantic s); destruct s; reflexivity].
  destruct (get host data "memories") as [v|e];
    [eexists; reflexivity|exists (semantic s); destruct s; reflexivity].
Qed.

(** The [try] block leaves [text] and [loading] alone. *)
Lemma send_try_flags (w : World) (aid : jsstring) (s : AppState) :
  text (snd (send_try host w aid s)) = text s /\
  loading (snd (send_try host w aid s)) = loading s.
Proof.
  destruct (chat_stream w) as [err|r] eqn:Ef.
  - unfold send_try. rewrite Ef. split; reflexivity.
  - destruct (if ok r then body r else None) as [b|] eqn:Eb.
    + assert (Hok : ok r = true) by (destruct (ok r); [reflexivity|discriminate]).
      rewrite Hok in Eb.
      rewrite (send_try_stream host w r b aid s Ef Hok Eb).
      destruct (for_each_effect host aid (frames_of b)) as (c & f & Hf).
      unfold bind. rewrite Hf.
      destruct c as [[]|e]; [|split; reflexivity].
      unfold stream_outcome, ret, throw.
      destruct (stream_end b); [|split; reflexivity].
      match goal with |- context [loadSemantic host w ?s0] =>
        destruct (loadSemantic_effect w s0) as [sem Hsem];
        destruct (loadSemantic host w s0) as [[[]|e] s1] end;
        cbn [snd] in *; subst s1; split; reflexivity.
    + rewrite (send_try_failed host w r aid s Ef Eb).
      unfold bind, lift, throw.
      destruct (Response_json host r) as [data|e]; [|split; reflexivity].
      destruct (failure_text host data) as [v|e]; split; reflexivity.
Qed.

(** X1.  [send] never throws.  When the typed text is blank or a turn
    is in progress it changes nothing.  Otherwise it ends with the text
    box cleared and [loading] false, and the message list is the old
    one followed by the user entry and the assistant entry, where at
    most the content of entries carrying the assistant id of the turn
    has changed. *)
Theorem send_outcome (w : World) (st : AppState) :
  fst (send host w st) = Normal tt /\
  if can_send st then
    text (snd (send host w st)) = [] /\
    loading (snd (send host w st)) = false /\
    frame_effect (new_assistantId w)
      (messages st ++
       [ {| id := None; role := user; content := trim (text st) |};
         {| id := Some (new_assistantId w); role := assistant; content := [] |} ])
      (messages (snd (send host w st)))
  else snd (send host w st) = st.
Proof.
  destruct (can_send st) eqn:Hgo.
  - destruct (can_send_guard st Hgo) as [Htext Hload].
    rewrite (send_started host w st Htext Hload).
    unfold try_finally, try_catch.
    destruct (send_try_messages host w (new_assistantId w)
                (turn_start st (new_assistantId w))) as [f Hf].
    destruct (send_try_flags w (new_assistantId w)
                (turn_start st (new_assistantId w))) as [Ht _].
    destruct (send_try host w (new_assistantId w) (turn_start st (new_assistantId w)))
      as [[[]|e] s1]; cbn [fst snd] in *.
    + split; [reflexivity|]. split; [exact Ht|]. split; [reflexivity|].
      cbn [setLoading snd messages]. rewrite Hf. apply frame_effect_update.
    + split; [reflexivity|]. split; [exact Ht|]. split; [reflexivity|].
      cbn [send_catch setMessages setLoading snd messages]. rewrite Hf.
      rewrite update_assistant_compose. apply frame_effect_update.
  - unfold can_send in Hgo. unfold send.
    destruct (trim (text st)); [split; reflexivity|].
    apply negb_false_iff in Hgo. rewrite Hgo. split; reflexivity.
Qed.

(** X2.  In a turn that completes (no [error] frame, the stream ends,
    the memories refresh succeeds) the assistant entry shows what the
    frames appended, in the order of the frames: token texts and tool
    annotations interleaved, nothing for other frames. *)
Theorem stream_appends_in_order
  (w : World) (st : AppState) (r : Response) (b : Body) (v : option (list Byte.byte)) :
  can_send st = true ->
  chat_stream w = Resolved r -> ok r = true -> body r = Some b ->
  stream_end b = Completed v ->
  forallb (fun f => negb (is_error_frame host f)) (frames_of b) = true ->
  (forall s, fst (loadSemantic host w s) = Normal tt) ->
  fst (send host w st) = Normal tt /\
  messages (snd (send host w st)) =
  update_assistant (new_assistantId w)
    (fun m => content m ++ concat (map (frame_delta host) (frames_of b))) (messages st) ++
  [ {| id := None; role := user; content := trim (text st) |};
    {| id := Some (new_assistantId w); role := assistant;
       content := concat (map (frame_delta host) (frames_of b)) |} ].
Proof.
  intros Hgo Hf Hok Hb Hend Hfr Hsem.
  destruct (can_send_guard st Hgo) as [Htext Hload].
  rewrite send_started by assumption.
  unfold try_finally, try_catch.
  rewrite (send_try_stream host w r b _ _ Hf Hok Hb).
  unfold bind. rewrite (for_each_deltas host (new_assistantId w) _ Hfr).
  unfold stream_outcome. rewrite Hend. unfold ret.
  match goal with |- context [loadSemantic host w ?s] =>
    pose proof (Hsem s) as Hc; pose proof (loadSemantic_messages host w s) as Hm;
    destruct (loadSemantic host w s) as [c s2] end.
  cbn [fst snd] in Hc, Hm. subst c. cbn [setLoading fst snd messages].
  split; [reflexivity|]. rewrite Hm.
  cbn [with_messages messages turn_start].
  rewrite update_assistant_app, update_assistant_turn. reflexivity.
Qed.

(** X5.  The refresh of the semantic memories runs inside the same
    [try] block: when it throws after a stream that completed, the
    catch handler replaces the streamed reply by the error text. *)
Theorem memories_failure_replaces_reply
  (w : World) (st : AppState) (r : Response) (b : Body) (v : option (list Byte.byte))
  (err : Error) :
  can_send st = true ->
  chat_stream w = Resolved r -> ok r = true -> body r = Some b ->
  stream_end b = Completed v ->
  forallb (fun f => negb (is_error_frame host f)) (frames_of b) = true ->
  (forall s, fst (loadSemantic host w s) = Throw err) ->
  send host w st =
  (Normal tt,
   turn_result st (new_assistantId w) (lit "Error: " ++ message err) (semantic st)).
Proof.
  intros Hgo Hf Hok Hb Hend Hfr Hsem.
  destruct (can_send_guard st Hgo) as [Htext Hload].
  destruct (for_each_update host (new_assistantId w) (frames_of b) Hfr) as [f Hupd].
  apply (send_thrown host w st err f Htext Hload).
  rewrite (send_try_stream host w r b _ _ Hf Hok Hb).
  unfold bind. rewrite Hupd. unfold stream_outcome. rewrite Hend. unfold ret.
  match goal with |- context [loadSemantic host w ?s] =>
    pose proof (Hsem s) as Hc; pose proof (loadSemantic_throw host w s err (Hsem s)) as Hs;
    destruct (loadSemantic host w s) as [c s2] end.
  cbn [fst snd] in Hc, Hs. subst c s2. reflexivity.
Qed.

(** X6.  [loadSemantic] does not look at the status of the response:
    whenever the body parses to a value other than [null], it completes
    normally and sets the list to the body's [memories] when that is
    truthy and to the empty array otherwise, leaving the rest of the
    state alone. *)
Theorem loadSemantic_sets_memories
  (w : World) (s : AppState) (r : Response) (data : JSValue) :
  memories_semantic w = Resolved r ->
  Response_json host r = Normal data -> nullish data = false ->
  loadSemantic host w s =
  (Normal tt,
   with_semantic s
     (if truthy host (get_opt data "memories") then get_opt data "memories" else JArr [])).
Proof.
  intros Hf Hjson Hnn. unfold loadSemantic, bind, lift. rewrite Hf. cbn [fetch].
  rewrite Hjson.
  assert (get host data "memories" = Normal (get_opt data "memories")) as ->
    by (destruct data; try reflexivity; discriminate).
  reflexivity.
Qed.

(** X7.  When the request itself is rejected, no response is read: the
    assistant entry shows ["Error: "] followed by the message of the
    rejection, and the semantic memories are not refreshed. *)
Theorem fetch_rejection_shown (w : World) (st : AppState) (err : Error) :
  can_send st = true ->
  chat_stream w = Rejected err ->
  send host w st =
  (Normal tt,
   turn_result st (new_assistantId w) (lit "Error: " ++ message err) (semantic st)).
Proof.
  intros Hgo Hf. destruct (can_send_guard st Hgo) as [Htext Hload].
  apply (send_thrown host w st err content Htext Hload).
  unfold send_try. rewrite Hf. cbn [fetch]. unfold bind, lift.
  rewrite update_assistant_same, with_messages_same. reflexivity.
Qed.

(** X8.  A response that is not successful, or has no body, and whose
    body is not JSON surfaces the parser's error, not the generic
    text; and when the body is the JSON [null] it surfaces the
    [TypeError] of reading [detail] from it. *)
Theorem failure_body_not_an_object (w : World) (st : AppState) (r : Response) :
  can_send st = true ->
  chat_stream w = Resolved r -> (if ok r then body r else None) = None ->
  (forall e, Response_json host r = Throw e ->
     send host w st =
     (Normal tt,
      turn_result st (new_assistantId w) (lit "Error: " ++ message e) (semantic st))) /\
  (forall data, Response_json host r = Normal data -> nullish data = true ->
     send host w st =
     (Normal tt,
      turn_result st (new_assistantId w)
        (lit "Error: " ++ TypeError_message host data (lit "detail")) (semantic st))).
Proof.
  intros Hgo Hf Hfail. destruct (can_send_guard st Hgo) as [Htext Hload].
  split.
  - intros e Hjson.
    apply (send_thrown host w st e content Htext Hload).
    rewrite (send_try_failed host w r _ _ Hf Hfail).
    unfold bind, lift. rewrite Hjson.
    rewrite update_assistant_same, with_messages_same. reflexivity.
  - intros data Hjson Hnull.
    apply (send_thrown host w st
             {| message := TypeError_message host data (lit "detail") |} content
             Htext Hload).
    rewrite (send_try_failed host w r _ _ Hf Hfail).
    unfold bind, lift. rewrite Hjson.
    rewrite update_assistant_same, with_messages_same.
    destruct data; try discriminate; reflexivity.
Qed.

End OutcomeFacts.

Lemma stream_appends_in_order_witness :
  messages (snd (send sample_host (sample_world 200 tool_stream (Completed None))
                   sample_state)) =
  [ {| id := None; role := user; content := lit "first" |};
    {| id := Some (lit "a-5"); role := assistant; content := lit "reply" |};
    {| id := None; role := user; content := lit "hi" |};
    {| id := Some (lit "a-17"); role := assistant;
       content := lit "Let me look. " ++ [LF] ++ litq "[tool:search] {'tool':'search'}"
                  ++ lit "Done." |} ].
Proof.
  apply (proj2 (stream_appends_in_order sample_host
                  (sample_world 200 tool_stream (Completed None)) sample_state
                  {| status := 200;
                     body := Some {| chunks := tool_stream; stream_end := Completed None |} |}
                  {| chunks := tool_stream; stream_end := Completed None |} None
                  eq_refl eq_refl eq_refl eq_refl eq_refl eq_refl
                  (fun s => eq_refl))).
Defined.

Lemma memories_failure_replaces_reply_witness :
  send sample_host memories_unreachable sample_state =
  (Normal tt, turn_result sample_state (lit "a-17") (lit "Error: Failed to fetch") JNull).
Proof.
  apply (memories_failure_replaces_reply sample_host memories_unreachable sample_state
           {| status := 200;
              body := Some {| chunks := [wire "event: token|data: {'text':'Hello'}||"];
                              stream_end := Completed None |} |}
           {| chunks := [wire "event: token|data: {'text':'Hello'}||"];
              stream_end := Completed None |}
           None {| message := lit "Failed to fetch" |});
    reflexivity.
Defined.

Lemma loadSemantic_sets_memories_witness :
  loadSemantic sample_host memories_down
    (with_semantic sample_state (JArr [JStr (lit "likes tea")])) =
  (Normal tt, with_semantic sample_state (JArr [])).
Proof.
  apply (loadSemantic_sets_memories sample_host memories_down
           (with_semantic sample_state (JArr [JStr (lit "likes tea")]))
           {| status := 500;
              body := Some {| chunks := [wire "{'detail':'down'}"];
                              stream_end := Completed None |} |}
           (JObj [(lit "detail", JStr (lit "down"))]));
    reflexivity.
Defined.

Lemma fetch_rejection_shown_witness :
  send sample_host memories_down sample_state =
  (Normal tt, turn_result sample_state (lit "a-17") (lit "Error: Failed to fetch") JNull).
Proof.
  apply (fetch_rejection_shown sample_host memories_down sample_state
           {| message := lit "Failed to fetch" |});
    reflexivity.
Defined.

Lemma failure_body_not_an_object_witness :
  send sample_host (sample_world 502 [wire "<html>Bad Gateway</html>"] (Completed None))
    sample_state =
  (Normal tt,
   turn_result sample_state (lit "a-17") (lit "Error: Unexpected token in JSON") JNull) /\
  send sample_host (sample_world 500 [wire "null"] (Completed None)) sample_state =
  (Normal tt,
   turn_result sample_state (lit "a-17")
     (lit "Error: Cannot read properties of null (reading 'detail')") JNull).
Proof.
  split.
  - apply (proj1 (failure_body_not_an_object sample_host
                    (sample_world 502 [wire "<html>Bad Gateway</html>"] (Completed None))
                    sample_state
                    {| status := 502;
                       body := Some {| chunks := [wire "<html>Bad Gateway</html>"];
                                       stream_end := Completed None |} |}
                    eq_refl eq_refl eq_refl)
             {| message := lit "Unexpected token in JSON" |}).
    reflexivity.
  - apply (proj2 (failure_body_not_an_object sample_host
                    (sample_world 500 [wire "null"] (Completed None))
                    sample_state
                    {| status := 500;
                       body := Some {| chunks := [wire "null"];
                                       stream_end := Completed None |} |}
                    eq_refl eq_refl eq_refl)
             JNull); reflexivity.
Defined.

Section EventFacts.

Local Open Scope js_scope.

Variable host : Host.
Variable assistantId : jsstring.

(** X3.  The annotation of a [tool_call] event names the tool by
    [payload.tool_call.name] when that is a non-empty string, else by
    [payload.tool] when that is one, and by [tool] when neither is
    truthy; it is appended on a new line, followed by the payload
    serialised as JSON. *)
Theorem tool_label_precedence (block : jsstring) (p : JSValue) (st : AppState) :
  parseSseBlock host block = Normal (Some {| event := lit "tool_call"; payload := p |}) ->
  (forall n, get_opt (get_opt p "tool_call") "name" = JStr n -> n <> [] ->
     handle_block host assistantId block st =
     (Normal tt, with_messages st
        (update_assistant assistantId
           (fun m => content m ++ [LF] ++ lit "[tool:" ++ n ++ lit "] "
                       ++ JSON_stringify host p) (messages st)))) /\
  (forall t, truthy host (get_opt (get_opt p "tool_call") "name") = false ->
     get_opt p "tool" = JStr t -> t <> [] ->
     handle_block host assistantId block st =
     (Normal tt, with_messages st
        (update_assistant assistantId
           (fun m => content m ++ [LF] ++ lit "[tool:" ++ t ++ lit "] "
                       ++ JSON_stringify host p) (messages st)))) /\
  (truthy host (get_opt (get_opt p "tool_call") "name") = false ->
   truthy host (get_opt p "tool") = false ->
   handle_block host assistantId block st =
   (Normal tt, with_messages st
      (update_assistant assistantId
         (fun m => content m ++ [LF] ++ lit "[tool:" ++ lit "tool" ++ lit "] "
                     ++ JSON_stringify host p) (messages st)))).
Proof.
  intros Hp.
  assert (Hh : handle_block host assistantId block st =
               dispatch host assistantId {| event := lit "tool_call"; payload := p |} st)
    by (unfold handle_block, bind, lift; rewrite Hp; reflexivity).
  rewrite Hh. unfold dispatch. cbn [event payload].
  change (eqb (lit "tool_call") (lit "tool_call")) with true. cbv iota.
  unfold setMessages, with_messages, js_or.
  split; [|split].
  - intros n Hn Hne. rewrite Hn. destruct n; [congruence|reflexivity].
  - intros t Hname Ht Hne. rewrite Hname, Ht. destruct t; [congruence|reflexivity].
  - intros Hname Htool. rewrite Hname, Htool. reflexivity.
Qed.

(** X9.  A value delivered together with [done: true] is decoded and
    split like a last chunk: the read loop behaves as if that value had
    come as one more chunk before a bare end of stream. *)
Theorem final_value_is_a_last_chunk
  (cs : list (list Byte.byte)) (v : list Byte.byte) (st : AppState) :
  read_loop host assistantId cs (Completed (Some v)) loop_start st =
  read_loop host assistantId (cs ++ [v]) (Completed None) loop_start st.
Proof.
  pose proof (read_loop_frames host assistantId
                {| chunks := cs; stream_end := Completed (Some v) |} st) as H1.
  pose proof (read_loop_frames host assistantId
                {| chunks := cs ++ [v]; stream_end := Completed None |} st) as H2.
  cbn [chunks stream_end] in H1, H2. rewrite H1, H2.
  unfold frames_of, decoded_text, stream_outcome.
  cbn [chunks stream_end bytes_or_empty].
  rewrite concat_app. cbn [concat]. rewrite !app_nil_r. reflexivity.
Qed.

Lemma includes_false_split (sep s : jsstring) :
  includes sep s = false -> split sep s = [s].
Proof.
  unfold split. induction s as [|c s IH]; [reflexivity|].
  cbn [includes split_scan]. intros H. apply orb_false_iff in H as [Hs Hin].
  rewrite Hs, (IH Hin). reflexivity.
Qed.

(** X14.  As long as the decoded text of a stream holds no two
    consecutive line feeds, no frame is ever parsed or dispatched: the
    read loop leaves the state as it was and ends as the stream ends. *)
Theorem no_blank_line_nothing_dispatched (b : Body) (st : AppState) :
  includes [LF; LF] (decoded_text b) = false ->
  read_loop host assistantId (chunks b) (stream_end b) loop_start st =
  stream_outcome b st.
Proof.
  intros H. rewrite read_loop_frames. unfold frames_of.
  rewrite (includes_false_split _ _ H). reflexivity.
Qed.

End EventFacts.

Lemma no_blank_line_nothing_dispatched_witness :
  read_loop sample_host (lit "a-17") crlf_stream (Completed None) loop_start
    (turn_start sample_state (lit "a-17")) =
  (Normal tt, turn_start sample_state (lit "a-17")).
Proof.
  apply (no_blank_line_nothing_dispatched sample_host (lit "a-17")
           {| chunks := crlf_stream; stream_end := Completed None |}
           (turn_start sample_state (lit "a-17"))).
  reflexivity.
Defined.

Lemma tool_label_precedence_witness :
  handle_block sample_host (lit "a-5")
    (lit "event: tool_call" ++ [LF] ++ litq "data: {'tool':'search'}") sample_state =
  (Normal tt,
   with_messages sample_state
     [ {| id := None; role := user; content := lit "first" |};
       {| id := Some (lit "a-5"); role := assistant;
          content := lit "reply" ++ [LF] ++ litq "[tool:search] {'tool':'search'}" |} ]).
Proof.
  apply (proj1 (proj2 (tool_label_precedence sample_host (lit "a-5")
                         (lit "event: tool_call" ++ [LF] ++ litq "data: {'tool':'search'}")
                         (JObj [(lit "tool", JStr (lit "search"))]) sample_state eq_refl))
           (lit "search")).
  - reflexivity.
  - reflexivity.
  - discriminate.
Defined.

(** X4.  An [error] event whose payload has no truthy [message]
    (missing, empty, [null]) ends the turn with the default text
    ["Error: Stream error"]. *)
Theorem error_event_default_text
  (host : Host) (w : World) (st : AppState) (r : Response) (b : Body)
  (pre post : list jsstring) (blk : jsstring) (p : JSValue) :
  can_send st = true ->
  chat_stream w = Resolved r -> ok r = true -> body r = Some b ->
  frames_of b = pre ++ blk :: post ->
  forallb (fun f => negb (is_error_frame host f)) pre = true ->
  parseSseBlock host blk = Normal (Some {| event := lit "error"; payload := p |}) ->
  truthy host (get_opt p "message") = false ->
  send host w st =
  (Normal tt,
   turn_result st (new_assistantId w) (lit "Error: Stream error") (semantic st)).
Proof.
  intros Hgo Hf Hok Hb Hfr Hpre Hblk Hmsg.
  destruct (can_send_guard st Hgo) as [Htext Hload].
  destruct (for_each_update host (new_assistantId w) pre Hpre) as [f Hupd].
  apply (send_thrown host w st {| message := lit "Stream error" |} f Htext Hload).
  apply (send_try_stream_throw host w r b _ _ _ _ Hf Hok Hb).
  unfold bind at 1. rewrite Hfr, for_each_app. unfold bind at 1. rewrite Hupd.
  cbn [for_each]. unfold bind at 1.
  unfold handle_block, bind, lift. rewrite Hblk.
  unfold dispatch. cbn [event payload].
  change (eqb (lit "error") (lit "tool_call")) with false.
  change (eqb (lit "error") (lit "token")) with false.
  change (eqb (lit "error") (lit "error")) with true. cbv iota.
  unfold js_or. rewrite Hmsg. reflexivity.
Qed.

Lemma error_event_default_text_witness :
  send sample_host (sample_world 200 silent_error_stream (Completed None)) sample_state =
  (Normal tt, turn_result sample_state (lit "a-17") (lit "Error: Stream error") JNull).
Proof.
  apply (error_event_default_text sample_host
           (sample_world 200 silent_error_stream (Completed None)) sample_state
           {| status := 200;
              body := Some {| chunks := silent_error_stream;
                              stream_end := Completed None |} |}
           {| chunks := silent_error_stream; stream_end := Completed None |}
           [lit "event: token" ++ [LF] ++ litq "data: {'text':'so far'}"]
           []
           (lit "event: error" ++ [LF] ++ lit "data: {}")
           (JObj []));
    reflexivity.
Defined.

Section IdFacts.

Lemma lit_inj (a b : string) : lit a = lit b -> a = b.
Proof.
  unfold lit. intros H.
  rewrite <- (string_of_list_ascii_of_string a), <- (string_of_list_ascii_of_string b).
  f_equal. revert H.
  generalize (list_ascii_of_string a) (list_ascii_of_string b).
  intros l1; induction l1 as [|x l1 IH]; intros [|y l2] H; try discriminate;
    [reflexivity|].
  injection H as Hx Hl. f_equal; [|apply IH; exact Hl].
  rewrite <- (ascii_N_embedding x), <- (ascii_N_embedding y), Hx. reflexivity.
Qed.

Lemma of_N_inj (a b : N) : of_N a = of_N b -> a = b.
Proof.
  unfold of_N. intros H. apply lit_inj in H.
  apply DecimalN.Unsigned.to_uint_inj.
  assert (Hn : forall n, N.to_uint n <> Decimal.Nil).
  { intros n. rewrite <- (DecimalN.Unsigned.of_to n) at 1.
    rewrite DecimalN.Unsigned.to_of. apply DecimalFacts.unorm_nonnil. }
  pose proof (NilZero.usu (N.to_uint a) (Hn a)) as Ha.
  pose proof (NilZero.usu (N.to_uint b) (Hn b)) as Hb.
  rewrite H in Ha. rewrite Ha in Hb. injection Hb as Hb. exact Hb.
Qed.

(** X15.  Turns started at different clock readings get different
    assistant ids. *)
Theorem assistant_id_determines_clock (w1 w2 : World) :
  new_assistantId w1 = new_assistantId w2 -> Date_now w1 = Date_now w2.
Proof.
  unfold new_assistantId. intros H. apply app_inv_head in H.
  apply of_N_inj. exact H.
Qed.

End IdFacts.

Lemma assistant_id_determines_clock_witness :
  Date_now (sample_world 200 [] (Completed None)) =
  Date_now (sample_world 500 [wire "{}"] (Completed None)).
Proof.
  apply (assistant_id_determines_clock (sample_world 200 [] (Completed None))
           (sample_world 500 [wire "{}"] (Completed None))).
  reflexivity.
Defined.
